(** * phone-notify: the stock monitor, its fetch retries and its parser

    A shallow embedding of [src/services/appleStoreService.js]
    ([checkAvailability], [_parseResponse]), of
    [src/services/monitoringService.js] ([start], [stop], [_performCheck],
    [_detectStatusChange], [_handleStatusChange]), of
    [src/services/pushoverService.js] ([sendNotification],
    [notifyStockAvailable]) and of [src/config/config.js] ([loadConfig]),
    with the properties the design document states about them.

    The parser is embedded twice: on the payload typed as the endpoint
    documents it, and, in [Js], on any JSON value, read as the language
    reads it.  [typed_parse_agrees] shows that the two agree on the typed
    payloads. *)

From stdpp Require Import base option list strings pretty gmap.
From Stdlib Require Import Ascii ZArith Lia.

Set Default Proof Using "Type".
Local Open Scope string_scope.
Local Open Scope list_scope.

(** ** Completions

    A JavaScript call either returns a value or throws.  The services only
    ever throw [Error] objects and only ever read their [message], so a
    thrown error is its message. *)

Inductive completion (A : Type) : Type :=
| Returned (a : A)
| Threw (message : string).
Arguments Returned {A} a.
Arguments Threw {A} message.

Definition threw {A} (c : completion A) : bool :=
  match c with Threw _ => true | Returned _ => false end.

(** ** JavaScript strings

    Strings are byte strings.  [toLowerCase] maps the letters [A]-[Z]; the
    only use the services make of it is a search for a phrase of lower-case
    ASCII letters, which no other character's lower-case form can produce. *)

Definition isUpper (c : ascii) : bool :=
  (65 <=? nat_of_ascii c)%nat && (nat_of_ascii c <=? 90)%nat.

Definition lowerChar (c : ascii) : ascii :=
  if isUpper c then ascii_of_nat (nat_of_ascii c + 32) else c.

Fixpoint toLowerCase (s : string) : string :=
  match s with
  | EmptyString => EmptyString
  | String c s' => String (lowerChar c) (toLowerCase s')
  end.

(** [s.includes(t)]: [t] occurs in [s] at some position. *)
Fixpoint includes (s t : string) : bool :=
  String.prefix t s ||
  match s with
  | EmptyString => false
  | String _ s' => includes s' t
  end.

(** [a || b] on strings: the empty string is the only falsy string. *)
Definition strOr (a b : string) : string :=
  if String.eqb a "" then b else a.

(** [x || d] where [x] is a property that may be missing or [null]. *)
Definition orElse {A} (x : option A) (d : A) : A :=
  match x with Some a => a | None => d end.

(** Optional chaining [x?.f]: [undefined] when [x] is missing or [null]. *)
Definition optChain {A B} (x : option A) (f : A -> option B) : option B :=
  match x with Some a => f a | None => None end.
Notation "x ?. f" := (optChain x f) (at level 50, left associativity).

(** [x || d] where [x] is a text property: a missing, [null] or empty
    property is falsy. *)
Definition strOrElse (x : option string) (d : string) : string :=
  match x with Some a => strOr a d | None => d end.

(** [o[k]] on an object used as a map, for a key [k] that is not the name
    of a member objects inherit: a missing key reads [undefined], and a
    present key may hold [null].  [Js.get] below is the read for any
    key. *)
Definition getProp {V} (o : gmap string (option V)) (k : string) : option V :=
  match o !! k with Some v => v | None => None end.

(** ** The payload of the fulfilment endpoint

    The response of [apiResponse.json()], typed after the fields the parser
    reads: the quote fields and the store name hold text, [stores] a list and
    [partsAvailability] an object keyed by part number.  Every property may
    be missing or [null] ([None]); the parser does not tell the two apart.
    The payload itself may be [null].  A response of another shape (a quote
    that is a number, say) is not a typed payload; the parser on any JSON
    value is [Js._parseResponse] below. *)

Record PartData := {
  pickupSearchQuote : option string;
  storePickupQuote : option string;
}.

Record Store := {
  storeName : option string;
  partsAvailability : option (gmap string (option PartData));
}.

Record PickupMessage := { stores : option (list (option Store)) }.
Record Content := { pickupMessage : option PickupMessage }.
Record Body := { content : option Content }.
Record Payload := { body : option Body }.

(** The object [_parseResponse] returns.  The two early returns build an
    object without a [storeName] property. *)
Module StockData.
Record t := {
  available : bool;
  message : string;
  storeName : option string;
  rawData : option Payload;
}.
End StockData.

(** ** [AppleStoreService._parseResponse], on the typed payload *)

Definition typeErrorNull (prop : string) : string :=
  "Cannot read properties of null (reading '" +:+ prop +:+ "')".
Definition typeErrorUndefined (prop : string) : string :=
  "Cannot read properties of undefined (reading '" +:+ prop +:+ "')".

Definition tryCatch {A} (c : completion A) (handler : string -> completion A)
  : completion A :=
  match c with
  | Returned a => Returned a
  | Threw e => handler e
  end.

Section Parser.
(** [this.partNumber], from the configuration. *)
Variable partNumber : string.

(** The body of the [try] block. *)
Definition _parseResponse_try (data : option Payload)
  : completion StockData.t :=
  match data with
  | None => Threw (typeErrorNull "body")
  | Some d =>
    (* data.body?.content?.pickupMessage?.stores || [] *)
    let stores_ :=
      orElse (body d ?. content ?. pickupMessage ?. stores) [] in
    if (length stores_ =? 0)%nat then
      Returned {| StockData.available := false;
                  StockData.message := "No store data available";
                  StockData.storeName := None;
                  StockData.rawData := data |}
    else
      match stores_ !! 0%nat with
      | None => Threw (typeErrorUndefined "partsAvailability")
      | Some None => Threw (typeErrorNull "partsAvailability")
      | Some (Some store) =>
        let partsAvailability_ := orElse (partsAvailability store)
                 (∅ : gmap string (option PartData)) in
        match getProp partsAvailability_ partNumber with
        | None =>
          Returned {| StockData.available := false;
                      StockData.message := "Part not found in store data";
                      StockData.storeName := None;
                      StockData.rawData := data |}
        | Some partData =>
          let pickupSearchQuote_ :=
            strOrElse (pickupSearchQuote partData) "" in
          let storePickupQuote_ :=
            strOrElse (storePickupQuote partData) "" in
          let available :=
            includes (toLowerCase pickupSearchQuote_) "available today" in
          Returned
            {| StockData.available := available;
               StockData.message :=
                 strOr pickupSearchQuote_
                       (strOr storePickupQuote_ "Unknown status");
               StockData.storeName :=
                 Some (strOrElse (storeName store) "Unknown Store");
               StockData.rawData := data |}
        end
      end
  end.

Definition _parseResponse (data : option Payload)
  : completion StockData.t :=
  tryCatch (_parseResponse_try data)
    (fun message => Threw ("Response parsing failed: " +:+ message)).
End Parser.

(** ** The state of the two services and their surroundings

    [lastKnownStatus] holds the object [_performCheck] stores after every
    completed check. *)
Module Status.
Record t := {
  available : bool;
  message : string;
  timestamp : string;
}.
End Status.

(** What the two services do to the outside, as far as it is followed
    here: the delay before a retry ([Sleep], the [setTimeout] of
    [retryDelay]), the teardown of the browser, notifications, the warnings
    of [start] and [stop] ([Warn]) and timers.  Pages belong to the browser
    and are not told apart from it.  What happens inside one fetch attempt
    (the navigation, its [page.waitForTimeout] pauses) is not an event, and
    neither is any other log line, the [logger.warn] lines of
    [checkAvailability] and [_parseResponse] included. *)
Inductive event :=
| Sleep (ms : Z)
| CloseBrowser
| Notify (stockData : StockData.t)
| Warn (message : string)
| SetInterval (id : nat) (ms : Z)
| ClearInterval (id : nat).

(** What one pass through the browser steps of [checkAvailability] meets:
    a step throws (navigation error, timeout, ...), no response of the API
    is captured, or a response is captured, with its status code and the
    completion of [apiResponse.json()]. *)
Inductive outcome :=
| PageError (message : string)
| NoResponse
| Response (statusCode : Z) (json : completion (option Payload)).

(** The surroundings: the outcome of the n-th fetch attempt and the clock
    read at the end of the n-th check. *)
Record World := {
  attempts : nat -> outcome;
  clock : nat -> string;
}.

Record Machine := {
  (* MonitoringService *)
  isRunning : bool;
  intervalId : option nat;
  lastKnownStatus : option Status.t;
  checkCount : nat;
  (* fetch attempts made so far *)
  fetches : nat;
  (* the repeating timers that are armed, and the next timer handle *)
  timers : gset nat;
  timerSeq : nat;
}.

Definition set_isRunning (b : bool) (m : Machine) : Machine :=
  {| isRunning := b; intervalId := intervalId m;
     lastKnownStatus := lastKnownStatus m; checkCount := checkCount m;
     fetches := fetches m; timers := timers m; timerSeq := timerSeq m |}.
Definition set_intervalId (i : option nat) (m : Machine) : Machine :=
  {| isRunning := isRunning m; intervalId := i;
     lastKnownStatus := lastKnownStatus m; checkCount := checkCount m;
     fetches := fetches m; timers := timers m; timerSeq := timerSeq m |}.
Definition set_lastKnownStatus (s : option Status.t) (m : Machine) : Machine :=
  {| isRunning := isRunning m; intervalId := intervalId m;
     lastKnownStatus := s; checkCount := checkCount m;
     fetches := fetches m; timers := timers m; timerSeq := timerSeq m |}.
Definition set_checkCount (n : nat) (m : Machine) : Machine :=
  {| isRunning := isRunning m; intervalId := intervalId m;
     lastKnownStatus := lastKnownStatus m; checkCount := n;
     fetches := fetches m; timers := timers m; timerSeq := timerSeq m |}.
Definition set_fetches (n : nat) (m : Machine) : Machine :=
  {| isRunning := isRunning m; intervalId := intervalId m;
     lastKnownStatus := lastKnownStatus m; checkCount := checkCount m;
     fetches := n; timers := timers m; timerSeq := timerSeq m |}.
Definition set_timers (t : gset nat) (n : nat) (m : Machine) : Machine :=
  {| isRunning := isRunning m; intervalId := intervalId m;
     lastKnownStatus := lastKnownStatus m; checkCount := checkCount m;
     fetches := fetches m; timers := t; timerSeq := n |}.

(** The state of the service as constructed. *)
Definition newMachine : Machine :=
  {| isRunning := false; intervalId := None; lastKnownStatus := None;
     checkCount := 0; fetches := 0; timers := ∅; timerSeq := 0 |}.

(** ** Computations: state, exceptions and a trace of events *)

Definition M (A : Type) : Type :=
  Machine -> completion A * Machine * list event.

Global Instance M_ret : MRet M := fun A a m => (Returned a, m, []).
Global Instance M_bind : MBind M := fun A B f c m =>
  match c m with
  | (Returned a, m1, evs1) =>
    match f a m1 with (r, m2, evs2) => (r, m2, evs1 ++ evs2) end
  | (Threw e, m1, evs1) => (Threw e, m1, evs1)
  end.

Definition throw {A} (message : string) : M A :=
  fun m => (Threw message, m, []).
Definition liftC {A} (c : completion A) : M A := fun m => (c, m, []).
Definition emit (e : event) : M unit := fun m => (Returned (), m, [e]).
Definition gets {A} (f : Machine -> A) : M A :=
  fun m => (Returned (f m), m, []).
Definition modify (f : Machine -> Machine) : M unit :=
  fun m => (Returned (), f m, []).

(** [try { body } catch (error) { handler }]: the state the body reached and
    the events it caused stay. *)
Definition tryCatchM {A} (body : M A) (handler : string -> M A) : M A :=
  fun m =>
    match body m with
    | (Returned a, m1, evs1) => (Returned a, m1, evs1)
    | (Threw e, m1, evs1) =>
      match handler e m1 with (r, m2, evs2) => (r, m2, evs1 ++ evs2) end
    end.

Definition result {A} (r : completion A * Machine * list event) := r.1.1.
Definition final {A} (r : completion A * Machine * list event) := r.1.2.
Definition events {A} (r : completion A * Machine * list event) := r.2.

(** ** [AppleStoreService] *)

Definition maxRetries : nat := 3.

Section Services.
Variable w : World.
(** [config.appleStore.partNumber] and [config.monitoring.intervalMs]. *)
Variable partNumber : string.
Variable intervalMs : Z.

(** The browser steps of one attempt, up to the captured response: the
    launch of the browser, the three navigations with their pauses, and the
    capture of the response.  The attempt is counted, and the surroundings
    say what it met; the pauses and log lines on the way leave no event. *)
Definition nextAttempt : M outcome :=
  fun m => (Returned (attempts w (fetches m)),
            set_fetches (S (fetches m)) m, []).

Definition _closeBrowser : M unit := emit CloseBrowser.
Definition cleanup : M unit := _closeBrowser.
Definition sleep (ms : Z) : M unit := emit (Sleep ms).

(** [checkAvailability(retryCount)], in its [try] block and its [catch]
    clause; [again] stands for the call
    [this.checkAvailability(retryCount + 1)]. *)
Definition checkAvailability_try (retryCount : nat)
    (again : M StockData.t) : M StockData.t :=
  a ← nextAttempt;
  match a with
  | PageError message => throw message
  | NoResponse => throw "No API response captured"
  | Response statusCode json =>
    if negb (statusCode =? 200)%Z then
      if (statusCode =? 541)%Z && (retryCount <? maxRetries)%nat then
        let retryDelay := ((Z.of_nat retryCount + 1) * 10000)%Z in
        _closeBrowser;; sleep retryDelay;; again
      else
        throw ("Apple API responded with status " +:+ pretty statusCode)
    else
      data ← liftC json;
      liftC (_parseResponse partNumber data)
  end.

Definition checkAvailability_catch (retryCount : nat)
    (again : M StockData.t) (error : string) : M StockData.t :=
  if negb (includes error "status") && (retryCount <? maxRetries)%nat
  then
    let retryDelay := ((Z.of_nat retryCount + 1) * 5000)%Z in
    _closeBrowser;; sleep retryDelay;; again
  else if includes error "status" then throw error
  else if includes error "timeout" then
    throw "Request timeout - Apple API did not respond in time"
  else throw ("Request failed: " +:+ error).

Definition checkAvailability_body (retryCount : nat)
    (again : M StockData.t) : M StockData.t :=
  tryCatchM (checkAvailability_try retryCount again)
            (checkAvailability_catch retryCount again).

(** The recursion of [checkAvailability] goes from [retryCount] up to
    [maxRetries]; [depth] counts the calls that may still follow.  At depth
    0 no call follows: [checkAvailability_unfold] below shows that the
    function so defined satisfies the recursive equation of the source for
    every [retryCount]. *)
Fixpoint checkAvailability_depth (depth retryCount : nat)
  : M StockData.t :=
  checkAvailability_body retryCount
    match depth with
    | S depth' => checkAvailability_depth depth' (S retryCount)
    | O => throw ""
    end.

Definition checkAvailability (retryCount : nat) : M StockData.t :=
  checkAvailability_depth (maxRetries - retryCount) retryCount.

(** ** [MonitoringService] *)

(** [pushoverService.notifyStockAvailable]: it never throws, and whether the
    message was delivered only selects a log line. *)
Definition notifyStockAvailable (stockData : StockData.t) : M unit :=
  emit (Notify stockData).

Definition _detectStatusChange (currentStock : StockData.t) : M bool :=
  last ← gets lastKnownStatus;
  match last with
  | None => mret false
  | Some lastKnownStatus_ =>
    let availabilityChanged :=
      negb (Bool.eqb (Status.available lastKnownStatus_)
                     (StockData.available currentStock)) in
    let messageChanged :=
      negb (String.eqb (Status.message lastKnownStatus_)
                       (StockData.message currentStock)) in
    if availabilityChanged || messageChanged then mret true
    else mret false
  end.

Definition _handleStatusChange (stockData : StockData.t) : M unit :=
  if StockData.available stockData then notifyStockAvailable stockData
  else mret ().

(** [_performCheck()].  It is an [async] function: a call runs it up to its
    first [await], which is the fetch, and hands back a promise; the rest,
    from that [await] on, runs when the caller has gone on or awaits the
    promise.  [_performCheck_rest] is the [try] block from the fetch on. *)
Definition _performCheck_rest : M unit :=
  stockData ← checkAvailability 0;
  statusChanged ← _detectStatusChange stockData;
  isFirstCheck ← gets (fun m => bool_decide (lastKnownStatus m = None));
  (if (statusChanged : bool) then _handleStatusChange stockData
   else if (isFirstCheck : bool) && StockData.available stockData then
     _handleStatusChange stockData
   else mret ());;
  now ← gets (fun m => clock w (checkCount m));
  modify (set_lastKnownStatus
            (Some {| Status.available := StockData.available stockData;
                     Status.message := StockData.message stockData;
                     Status.timestamp := now |}));;
  cleanup.

Definition _performCheck : M unit :=
  tryCatchM
    (modify (fun m => set_checkCount (S (checkCount m)) m);;
     _performCheck_rest)
    (fun error => cleanup).

(** The two parts of a call of [_performCheck] that is not awaited: what it
    does before it hands back its promise, and what it does afterwards. *)
Definition _performCheck_launch : M unit :=
  modify (fun m => set_checkCount (S (checkCount m)) m).

Definition _performCheck_resume : M unit :=
  tryCatchM _performCheck_rest (fun error => cleanup).

Definition setInterval (ms : Z) : M nat :=
  fun m => (Returned (timerSeq m),
            set_timers ({[timerSeq m]} ∪ timers m) (S (timerSeq m)) m,
            [SetInterval (timerSeq m) ms]).

Definition clearInterval (id : nat) : M unit :=
  fun m => (Returned (),
            set_timers (timers m ∖ {[id]}) (timerSeq m) m,
            [ClearInterval id]).

(** [start()].  The first check is not awaited: [start] launches it, arms
    the timer while the check is waiting for its fetch, and returns.  The
    check it launched is run to its end here, after the timer is armed and
    before anything else reaches the service. *)
Definition start : M unit :=
  running ← gets isRunning;
  if (running : bool) then
    emit (Warn "Monitoring service is already running")
  else
    modify (set_isRunning true);;
    _performCheck_launch;;
    id ← setInterval intervalMs;
    modify (set_intervalId (Some id));;
    _performCheck_resume.

Definition stop : M unit :=
  running ← gets isRunning;
  if negb running then
    emit (Warn "Monitoring service is not running")
  else
    modify (set_isRunning false);;
    id ← gets intervalId;
    match id with
    | Some id_ => clearInterval id_;; modify (set_intervalId None)
    | None => mret ()
    end;;
    cleanup.

(** The callback of the repeating timer, when timer [id] fires. *)
Definition tick (id : nat) : M unit :=
  armed ← gets (fun m => bool_decide (id ∈ timers m));
  if (armed : bool) then _performCheck else mret ().
End Services.

(** ** What the design document says about the parser

    The quote field the document speaks of, located by its path in the
    payload, and the case-insensitive occurrence of a phrase in a text. *)

Definition storeList (data : option Payload) : option (list (option Store)) :=
  d ← data;
  b ← body d;
  c ← content b;
  pm ← pickupMessage c;
  stores pm.

(** The entry of the target part in the first store of the list. *)
Definition partEntry (partNumber : string) (data : option Payload)
  : option PartData :=
  ss ← storeList data;
  entry ← head ss;
  store ← entry;
  pa ← partsAvailability store;
  getProp pa partNumber.

Definition quoteText (partNumber : string) (data : option Payload)
  : option string :=
  pd ← partEntry partNumber data;
  pickupSearchQuote pd.

(** The payload itself is missing ([null]). *)
Definition containerAbsent (data : option Payload) : Prop := data = None.

(** The store list has a first entry, and that entry is [null]. *)
Definition storeEntryAbsent (data : option Payload) : Prop :=
  exists rest, storeList data = Some (None :: rest).

(** The payload is there and its store list is missing or empty. *)
Definition storeListEmpty (data : option Payload) : Prop :=
  data <> None /\ (storeList data = None \/ storeList data = Some []).

(** The first store is there, without an entry for the part. *)
Definition partMissing (partNumber : string) (data : option Payload) : Prop :=
  (exists store rest, storeList data = Some (Some store :: rest)) /\
  partEntry partNumber data = None.

(** Two characters that are the same letter in either case. *)
Definition sameLetter (c d : ascii) : Prop :=
  c = d \/ (isUpper c = true /\ d = lowerChar c)
        \/ (isUpper d = true /\ c = lowerChar d).

Inductive equalsIgnoreCase : string -> string -> Prop :=
| eic_nil : equalsIgnoreCase "" ""
| eic_cons c d s t :
    sameLetter c d -> equalsIgnoreCase s t ->
    equalsIgnoreCase (String c s) (String d t).

Definition containsIgnoreCase (text phrase : string) : Prop :=
  exists pre mid post,
    text = pre +:+ mid +:+ post /\ equalsIgnoreCase mid phrase.

Definition quoteMatches (partNumber : string) (data : option Payload) : Prop :=
  exists q, quoteText partNumber data = Some q /\
            containsIgnoreCase q "available today".

(** ** What the design document says about retries

    The classes of fetch errors and the table of section 4.2, as a function
    of the class and the 0-based attempt number. *)

Inductive errorClass := AntiAutomation | Transport | OtherStatus | Timeout.

Record RetryDecision := {
  shouldRetry : bool;
  delay : Z;
  attempt : nat;
}.

Definition giveUp (attempt : nat) : RetryDecision :=
  {| shouldRetry := false; delay := 0; attempt := attempt |}.

Definition retryAfter (ms : Z) (attempt : nat) : RetryDecision :=
  {| shouldRetry := true; delay := ms; attempt := attempt |}.

Definition specRetryPolicy (class : errorClass) (attempt : nat)
  : RetryDecision :=
  match class with
  | AntiAutomation =>
    if (attempt <? 3)%nat
    then retryAfter ((Z.of_nat attempt + 1) * 10000) attempt
    else giveUp attempt
  | Transport =>
    if (attempt <? 3)%nat
    then retryAfter ((Z.of_nat attempt + 1) * 5000) attempt
    else giveUp attempt
  | OtherStatus => giveUp attempt
  | Timeout => giveUp attempt
  end.

(** The class of what an attempt met: 541 is the anti-automation status, a
    thrown error is a timeout when its message says so, and a transport
    failure otherwise.  An attempt answered with status 200 has no class. *)
Definition classify (o : outcome) : option errorClass :=
  match o with
  | Response statusCode _ =>
    if (statusCode =? 200)%Z then None
    else if (statusCode =? 541)%Z then Some AntiAutomation
    else Some OtherStatus
  | NoResponse => Some Transport
  | PageError message =>
    if includes message "timeout" then Some Timeout else Some Transport
  end.

(** What the code does: the table, with a timeout handled as any other
    transport failure. *)
Definition codeRetryPolicy (class : errorClass) (attempt : nat)
  : RetryDecision :=
  match class with
  | Timeout => specRetryPolicy Transport attempt
  | _ => specRetryPolicy class attempt
  end.

(** The message of the error thrown for a status other than 200. *)
Definition statusMessage (statusCode : Z) : string :=
  "Apple API responded with status " +:+ pretty statusCode.

(** The message of the error an attempt makes the [try] block throw before
    any status is read. *)
Definition thrownBy (o : outcome) : option string :=
  match o with
  | PageError message => Some message
  | NoResponse => Some "No API response captured"
  | Response _ _ => None
  end.

(** The decision a call of [checkAvailability(retryCount)] took, read off
    what it did first: before it calls itself again it closes the browser
    and waits; when it gives up it does neither. *)
Definition decisionTaken (retryCount : nat) (evs : list event)
  : RetryDecision :=
  match evs with
  | CloseBrowser :: Sleep ms :: _ => retryAfter ms retryCount
  | _ => giveUp retryCount
  end.

(** The waits of a run, in order, and the notifications it sent. *)
Definition sleeps (evs : list event) : list Z :=
  omap (fun e => match e with Sleep ms => Some ms | _ => None end) evs.

Definition notifications (evs : list event) : list StockData.t :=
  omap (fun e => match e with Notify sd => Some sd | _ => None end) evs.

(** A world in which every attempt meets the same thing. *)
Definition always (o : outcome) : World :=
  {| attempts := fun _ => o; clock := fun _ => "2025-01-01T00:00:00.000Z" |}.

(** What a fetch leaves behind: it only advances the count of attempts (by
    [k] at least), and it sends no notification. *)
Definition fetchOnly {A} (k : nat) (c : M A) : Prop :=
  forall m,
    (exists n, final (c m) = set_fetches n m /\ (fetches m + k <= n)%nat) /\
    notifications (events (c m)) = [].

(** What a call of [checkAvailability] that does not return at once does:
    it either gives up, having made one attempt and throwing, or it waits
    and calls itself again. *)
Inductive frame (retryCount : nat) (m : Machine)
  : completion StockData.t * Machine * list event -> Prop :=
| frame_gave_up e :
    frame retryCount m (Threw e, set_fetches (S (fetches m)) m, [])
| frame_retried ms r m2 evs :
    (retryCount < maxRetries)%nat ->
    (fetches m + 2 <= fetches m2)%nat ->
    frame retryCount m (r, m2, CloseBrowser :: Sleep ms :: evs).

(** [detectChange(previous, current)] of the design document. *)
Definition detectChange (previous : option Status.t) (current : StockData.t)
  : bool :=
  match previous with
  | None => false
  | Some p =>
    negb (Bool.eqb (Status.available p) (StockData.available current)) ||
    negb (String.eqb (Status.message p) (StockData.message current))
  end.

(** The notification trigger of the design document, section 4.1 step 6. *)
Definition shouldNotify (lastSnapshot : option Status.t)
    (newSnapshot : StockData.t) : Prop :=
  (detectChange lastSnapshot newSnapshot = true /\
   StockData.available newSnapshot = true) \/
  (lastSnapshot = None /\ StockData.available newSnapshot = true).

(** The status a completed check stores. *)
Definition stored (w : World) (stockData : StockData.t) (m : Machine)
  : Status.t :=
  {| Status.available := StockData.available stockData;
     Status.message := StockData.message stockData;
     Status.timestamp := clock w (checkCount m) |}.

(** The three shapes of the object [_parseResponse] returns. *)
Definition noStoreData (data : option Payload) : StockData.t :=
  {| StockData.available := false;
     StockData.message := "No store data available";
     StockData.storeName := None;
     StockData.rawData := data |}.

Definition partNotFound (data : option Payload) : StockData.t :=
  {| StockData.available := false;
     StockData.message := "Part not found in store data";
     StockData.storeName := None;
     StockData.rawData := data |}.

Definition quoted (data : option Payload) (store : Store) (pd : PartData)
  : StockData.t :=
  {| StockData.available :=
       includes (toLowerCase (orElse (pickupSearchQuote pd) ""))
                "available today";
     StockData.message :=
       strOr (orElse (pickupSearchQuote pd) "")
             (strOr (orElse (storePickupQuote pd) "") "Unknown status");
     StockData.storeName := Some (strOrElse (storeName store) "Unknown Store");
     StockData.rawData := data |}.

(** A payload that reaches the quote fields, for the examples below. *)
Definition payloadWith (partNumber : string) (name : option string)
    (pd : option PartData) : option Payload :=
  Some {| body := Some {| content := Some {| pickupMessage := Some {|
    stores := Some [Some {| storeName := name;
                            partsAvailability :=
                              Some {[ partNumber := pd ]} |}] |} |} |} |}.

(** A world whose n-th attempt is answered with status 200 and the n-th
    payload of a list ([null] beyond its end). *)
Definition answering (payloads : list (option Payload)) : World :=
  {| attempts := fun n => Response 200 (Returned (mjoin (payloads !! n)));
     clock := fun _ => "2025-01-01T00:00:00.000Z" |}.

Definition quotePayload (partNumber quote : string) : option Payload :=
  payloadWith partNumber (Some "Apple The Exchange TRX")
    (Some {| pickupSearchQuote := Some quote; storePickupQuote := None |}).

(** ** Further notions for the properties of the fetch

    A result with events put before its own, the total of the retry delays
    of a trace, and the traces a fetch can leave: teardowns of the browser,
    each followed by a retry delay of 5 to 30 seconds. *)
Definition prepend {A} (evs : list event)
    (r : completion A * Machine * list event)
  : completion A * Machine * list event :=
  (result r, final r, evs ++ events r).

Definition totalSleep (evs : list event) : Z := foldr Z.add 0%Z (sleeps evs).

Inductive waits : list event -> Prop :=
| waits_nil : waits []
| waits_cons ms evs :
    (5000 <= ms <= 30000)%Z -> waits evs ->
    waits (CloseBrowser :: Sleep ms :: evs).

(** The most the retry delays of a call [checkAvailability(retryCount)] can
    add up to. *)
Definition maxWait (retryCount : nat) : Z :=
  match retryCount with
  | O => 255000%Z
  | S O => 120000%Z
  | S (S O) => 45000%Z
  | _ => 0%Z
  end.

(** A world that draws all fifteen attempts of a fetch: a call answered with
    541 calls again, and what that call throws makes it call once more. *)
Definition worstWorld : World :=
  let rejected := Response 541 (Returned None) in
  let failed := PageError "net::ERR_CONNECTION_RESET" in
  {| attempts := fun n =>
       nth n [rejected; rejected; rejected; failed; failed;
              rejected; failed; failed;
              rejected; rejected; failed; failed;
              rejected; failed; failed] failed;
     clock := fun _ => "2025-01-01T00:00:00.000Z" |}.

(** The most attempts a call [checkAvailability(retryCount)] can make. *)
Definition maxAttempts (retryCount : nat) : nat :=
  match retryCount with
  | O => 15
  | S O => 7
  | S (S O) => 3
  | _ => 1
  end.

(** ** Runs of the monitoring service

    The calls that reach the service: [start] and [stop], from the server
    and the signal handlers, and the firing of a timer. *)
Inductive op := Start | Stop | Tick (id : nat).

Definition step (w : World) (partNumber : string) (intervalMs : Z) (o : op)
  : M unit :=
  match o with
  | Start => start w partNumber intervalMs
  | Stop => stop
  | Tick id => tick w partNumber id
  end.

Fixpoint runOps (w : World) (partNumber : string) (intervalMs : Z)
    (ops : list op) (m : Machine) : Machine :=
  match ops with
  | [] => m
  | o :: ops' =>
    runOps w partNumber intervalMs ops'
           (final (step w partNumber intervalMs o m))
  end.

(** The state of a stopped service once [start] has set [isRunning] and
    armed its timer, the check it launches left aside. *)
Definition timerArmed (m : Machine) : Machine :=
  set_intervalId (Some (timerSeq m))
    (set_timers ({[timerSeq m]} ∪ timers m) (S (timerSeq m))
       (set_isRunning true m)).

(** The timer the service holds is the one timer armed, and the service
    holds a timer exactly while it is running. *)
Definition wellFormed (m : Machine) : Prop :=
  (forall id, id ∈ timers m -> (id < timerSeq m)%nat) /\
  match intervalId m with
  | Some id => isRunning m = true /\ timers m = {[id]}
  | None => isRunning m = false /\ timers m = ∅
  end.

(** Completions compose like computations: a thrown error ends the rest. *)
Global Instance completion_ret : MRet completion := fun A a => Returned a.
Global Instance completion_bind : MBind completion := fun A B f c =>
  match c with
  | Returned a => f a
  | Threw e => Threw e
  end.

(** [try { ... } catch (error) { return false; }] *)
Definition tryCatchBool (c : completion bool) : bool :=
  match c with
  | Returned b => b
  | Threw _ => false
  end.

(** ** JavaScript values

    The typed payload above is what the endpoint documents.  The parser
    itself is handed whatever [apiResponse.json()] made of the body, and
    reads it with the property reads of the language: of any JSON value, by
    any name, finding also what the value inherits from its prototype.  This
    is the parser once more, on any JSON value.

    A number is an integer here; of a number the parser only asks whether
    it is zero, and a fraction behaves as any other number that is not.  An
    object is the list of its members in the order of the text; of two
    members of one name the later one counts, as for [JSON.parse]. *)
Module Js.
Unset Elimination Schemes.
Inductive json :=
| Null
| Bool (b : bool)
| Number (n : Z)
| Text (s : string)
| Array (items : list json)
| Object (members : list (string * json)).
Set Elimination Schemes.

(** What a property read can come to: nothing, a value of the payload, or a
    member found on a prototype, which is a function (or, under the name
    [__proto__], the prototype itself). *)
Inductive value :=
| Undefined
| Json (j : json)
| Inherited (name : string).

(** Whose prototype a name is looked up on. *)
Inductive kind :=
| OfObject
| OfArray
| OfString
| OfNumber
| OfBoolean
| OfInherited.

Definition kindOf (j : json) : option kind :=
  match j with
  | Null => None
  | Bool _ => Some OfBoolean
  | Number _ => Some OfNumber
  | Text _ => Some OfString
  | Array _ => Some OfArray
  | Object _ => Some OfObject
  end.

Definition truthy (v : value) : bool :=
  match v with
  | Undefined => false
  | Json Null => false
  | Json (Bool b) => b
  | Json (Number n) => negb (n =? 0)%Z
  | Json (Text s) => negb (String.eqb s "")
  | Json (Array _) => true
  | Json (Object _) => true
  | Inherited _ => true
  end.

(** [a || b] *)
Definition or (a b : value) : value := if truthy a then a else b.

(** The member of an object under a name. *)
Fixpoint member (key : string) (members : list (string * json))
  : option json :=
  match members with
  | [] => None
  | (name, j) :: rest =>
    match member key rest with
    | Some later => Some later
    | None => if String.eqb name key then Some j else None
    end
  end.

(** The index a property name stands for, below [length]. *)
Definition index (key : string) (length : nat) : option nat :=
  List.find (fun i => String.eqb (pretty i) key) (seq 0 length).

(** The properties a value has of its own: the members of an object, the
    length and the elements of an array, the length and the characters of a
    string. *)
Definition own (j : json) (key : string) : option json :=
  match j with
  | Object members => member key members
  | Array items =>
    if String.eqb key "length" then Some (Number (Z.of_nat (length items)))
    else
      match index key (length items) with
      | Some i => items !! i
      | None => None
      end
  | Text s =>
    if String.eqb key "length"
    then Some (Number (Z.of_nat (String.length s)))
    else
      match index key (String.length s) with
      | Some i =>
        match String.get i s with
        | Some c => Some (Text (String c ""))
        | None => None
        end
      | None => None
      end
  | _ => None
  end.

(** The members of [Object.prototype], which every object inherits. *)
Definition objectMembers : list string :=
  ["constructor"; "__defineGetter__"; "__defineSetter__"; "hasOwnProperty";
   "__lookupGetter__"; "__lookupSetter__"; "isPrototypeOf";
   "propertyIsEnumerable"; "toString"; "valueOf"; "__proto__";
   "toLocaleString"].

(** A prototype chain that holds [Object.prototype] and nothing else: that
    of an object literal or of an object of the payload. *)
Definition objectPrototype (k : kind) (key : string) : bool :=
  bool_decide (key ∈ objectMembers).

(** [`${v}`]: an object is made text by its [toString]; a member of that
    name hides the inherited function and cannot be called, and an array
    makes text of each of its elements. *)
Fixpoint unprintable (j : json) : bool :=
  match j with
  | Object members =>
    match member "toString" members with Some _ => true | None => false end
  | Array items => existsb unprintable items
  | _ => false
  end.

Definition toText (v : value) : completion unit :=
  match v with
  | Json j =>
    if unprintable j then Threw "Cannot convert object to primitive value"
    else Returned ()
  | _ => Returned ()
  end.

(** [v.toLowerCase()], for [v] neither [undefined] nor [null]: only a
    string has the method. *)
Definition toLowerCaseOf (name : string) (v : value) : completion string :=
  match v with
  | Json (Text s) => Returned (toLowerCase s)
  | _ => Threw (name +:+ ".toLowerCase is not a function")
  end.

(** The object [_parseResponse] returns: the message and the store name are
    whatever the payload held there. *)
Module StockData.
Record t := {
  available : bool;
  message : value;
  storeName : option value;
  rawData : json;
}.
End StockData.

Section Reads.
(** The names a value of each kind inherits, as the runtime has them. *)
Variable inherits : kind -> string -> bool.

Definition inherited (k : kind) (key : string) : value :=
  if inherits k key then Inherited key else Undefined.

(** [v.key] and [v[key]] *)
Definition get (v : value) (key : string) : completion value :=
  match v with
  | Undefined => Threw (typeErrorUndefined key)
  | Json j =>
    match kindOf j with
    | None => Threw (typeErrorNull key)
    | Some k =>
      Returned match own j key with
               | Some x => Json x
               | None => inherited k key
               end
    end
  | Inherited _ => Returned (inherited OfInherited key)
  end.

(** [v?.key] *)
Definition getOpt (v : value) (key : string) : completion value :=
  match v with
  | Undefined => Returned Undefined
  | Json Null => Returned Undefined
  | _ => get v key
  end.

(** [this.partNumber], from the configuration. *)
Variable partNumber : string.

(** The body of the [try] block. *)
Definition _parseResponse_try (data : json) : completion StockData.t :=
  body ← get (Json data) "body";
  content ← getOpt body "content";
  pickupMessage ← getOpt content "pickupMessage";
  stores0 ← getOpt pickupMessage "stores";
  let stores := or stores0 (Json (Array [])) in
  len ← get stores "length";
  if match len with Json (Number 0) => true | _ => false end then
    Returned {| StockData.available := false;
                StockData.message := Json (Text "No store data available");
                StockData.storeName := None;
                StockData.rawData := data |}
  else
    store ← get stores "0";
    partsAvailability0 ← get store "partsAvailability";
    let partsAvailability := or partsAvailability0 (Json (Object [])) in
    partData ← get partsAvailability partNumber;
    if negb (truthy partData) then
      Returned {| StockData.available := false;
                  StockData.message :=
                    Json (Text "Part not found in store data");
                  StockData.storeName := None;
                  StockData.rawData := data |}
    else
      pickupSearchQuote0 ← get partData "pickupSearchQuote";
      let pickupSearchQuote := or pickupSearchQuote0 (Json (Text "")) in
      storePickupQuote0 ← get partData "storePickupQuote";
      let storePickupQuote := or storePickupQuote0 (Json (Text "")) in
      lowered ← toLowerCaseOf "pickupSearchQuote" pickupSearchQuote;
      let available := includes lowered "available today" in
      (* the log line: `${pickupSearchQuote || storePickupQuote}` *)
      toText (or pickupSearchQuote storePickupQuote);;
      storeName0 ← get store "storeName";
      Returned
        {| StockData.available := available;
           StockData.message :=
             or (or pickupSearchQuote storePickupQuote)
                (Json (Text "Unknown status"));
           StockData.storeName :=
             Some (or storeName0 (Json (Text "Unknown Store")));
           StockData.rawData := data |}.

Definition _parseResponse (data : json) : completion StockData.t :=
  tryCatch (_parseResponse_try data)
    (fun message => Threw ("Response parsing failed: " +:+ message)).

(** *** What the design document says about the parser, for any payload

    The container, the store list, the store entry and the part entry of
    the document, as the property reads of the language find them. *)

(** [v?.key], which never throws. *)
Definition read (v : value) (key : string) : value :=
  match getOpt v key with
  | Returned x => x
  | Threw _ => Undefined
  end.

Definition nullish (v : value) : bool :=
  match v with
  | Undefined => true
  | Json Null => true
  | _ => false
  end.

(** The store list: what the payload holds at
    [body.content.pickupMessage.stores], or the empty list when it holds
    nothing truthy there. *)
Definition storesOf (data : json) : value :=
  or (read (read (read (read (Json data) "body") "content")
                 "pickupMessage") "stores")
     (Json (Array [])).

(** The part table of a store, or the empty table when the store holds
    nothing truthy there, and the entry of the part: what the table reads
    under the part number, inherited members included. *)
Definition partDataOf (store : value) : value :=
  read (or (read store "partsAvailability") (Json (Object []))) partNumber.

(** Where the payload leaves the parser. *)
Inductive located :=
| NoPayload
| NoStores
| NoStore (store : value)
| NoPart (store : value)
| Part (store partData : value).

Definition locate (data : json) : located :=
  if nullish (Json data) then NoPayload
  else
    match read (storesOf data) "length" with
    | Json (Number 0) => NoStores
    | _ =>
      let store := read (storesOf data) "0" in
      if nullish store then NoStore store
      else if truthy (partDataOf store) then Part store (partDataOf store)
      else NoPart store
    end.

(** A quote field of a part entry, after [|| '']. *)
Definition quote (partData : value) (field : string) : value :=
  or (read partData field) (Json (Text "")).

Definition isText (v : value) : bool :=
  match v with
  | Json (Text _) => true
  | _ => false
  end.

(** A part entry the parser cannot make a snapshot of:
    [pickupSearchQuote] is truthy and not a string, or it is empty and
    [storePickupQuote] cannot be written in the log line. *)
Definition malformedQuotes (partData : value) : bool :=
  negb (isText (quote partData "pickupSearchQuote")) ||
  threw (toText (or (quote partData "pickupSearchQuote")
                    (quote partData "storePickupQuote"))).

(** The message of the snapshot of a part entry. *)
Definition messageOf (partData : value) : value :=
  or (or (quote partData "pickupSearchQuote")
         (quote partData "storePickupQuote"))
     (Json (Text "Unknown status")).
End Reads.

(** A payload that reaches the quote fields, for the examples below: one
    store, named, with one part entry. *)
Definition payloadWith (partNumber : string) (partData : json) : json :=
  Object [("body", Object [("content", Object [("pickupMessage", Object
    [("stores", Array
       [Object [("storeName", Text "Apple The Exchange TRX");
                ("partsAvailability",
                 Object [(partNumber, partData)])]])])])])].

(** The names the parser reads that are written in its text.  None of them
    is a member of a prototype of the language. *)
Definition fieldsRead : list string :=
  ["body"; "content"; "pickupMessage"; "stores"; "partsAvailability";
   "pickupSearchQuote"; "storePickupQuote"; "storeName"].

Definition readsOwn (inherits : kind -> string -> bool) : Prop :=
  forall k key, key ∈ fieldsRead -> inherits k key = false.
End Js.

(** *** The typed payload as a JSON value

    A property that is [None] is left out, a [null] store or part entry is
    [null], and the parts of a store are the members of an object. *)
Definition textMember (key : string) (x : option string)
  : list (string * Js.json) :=
  match x with
  | Some s => [(key, Js.Text s)]
  | None => []
  end.

Definition jsonMember {A} (key : string) (f : A -> Js.json) (x : option A)
  : list (string * Js.json) :=
  match x with
  | Some a => [(key, f a)]
  | None => []
  end.

Definition jsonOfPartData (partData : option PartData) : Js.json :=
  match partData with
  | None => Js.Null
  | Some pd =>
    Js.Object (textMember "pickupSearchQuote" (pickupSearchQuote pd) ++
               textMember "storePickupQuote" (storePickupQuote pd))
  end.

Definition jsonOfParts (parts : gmap string (option PartData)) : Js.json :=
  Js.Object (map (fun entry => (entry.1, jsonOfPartData entry.2))
                 (map_to_list parts)).

Definition jsonOfStore (store : option Store) : Js.json :=
  match store with
  | None => Js.Null
  | Some s =>
    Js.Object (textMember "storeName" (storeName s) ++
               jsonMember "partsAvailability" jsonOfParts
                          (partsAvailability s))
  end.

Definition jsonOfPayload (data : option Payload) : Js.json :=
  match data with
  | None => Js.Null
  | Some d =>
    Js.Object (jsonMember "body" (fun b =>
      Js.Object (jsonMember "content" (fun c =>
        Js.Object (jsonMember "pickupMessage" (fun p =>
          Js.Object (jsonMember "stores" (fun l =>
            Js.Array (map jsonOfStore l)) (stores p)))
          (pickupMessage c)))
        (content b)))
      (body d))
  end.

Definition jsOfStockData (stockData : StockData.t) : Js.StockData.t :=
  {| Js.StockData.available := StockData.available stockData;
     Js.StockData.message := Js.Json (Js.Text (StockData.message stockData));
     Js.StockData.storeName :=
       (fun name => Js.Json (Js.Text name))
         <$> StockData.storeName stockData;
     Js.StockData.rawData := jsonOfPayload (StockData.rawData stockData) |}.


(** ** [PushoverService]

    [sendNotification] and [notifyStockAvailable].  [request] stands for
    what lies between the payload and the parsed answer of the API: the URL
    of the API, the HTTPS request of [_makeRequest] and the parsing of its
    body, which is a JSON object with a numeric [status], or [null]. *)
Module Pushover.
(** What the payload holds as [priority]: a number, or a member of
    [Object.prototype] that the name of the priority found, which is a
    function, left out by [JSON.stringify], or under the name [__proto__]
    the prototype itself, written as an empty object. *)
Inductive priorityValue :=
| Level (p : Z)
| Member (name : string).

Record Request := {
  token : string;
  user : string;
  title : string;
  message : string;
  priority : priorityValue;
}.

Record Response := { status : option Z }.

Definition priorityMap : gmap string Z :=
  {[ "low" := (-1)%Z; "normal" := 0%Z; "high" := 1%Z ]}.

Section Service.
(** The names an object inherits, as the runtime has them. *)
Variable inherits : Js.kind -> string -> bool.

(** [priorityMap[priority] || 0]: the map is an object literal, and a name
    that is not one of its keys still finds what the object inherits. *)
Definition priorityOf (priority : string) : priorityValue :=
  match priorityMap !! priority with
  | Some p => if (p =? 0)%Z then Level 0 else Level p
  | None =>
    if inherits Js.OfObject priority then Member priority else Level 0
  end.

(** [config.pushover.apiKey] and [config.pushover.userKey]. *)
Variable apiKey userKey : string.
Variable request : Request -> completion (option Response).

Definition sendNotification (title message priority : string) : bool :=
  tryCatchBool
    (response ← request {| token := apiKey; user := userKey;
                            title := title; message := message;
                            priority := priorityOf priority |};
     match response with
     | None => Threw (typeErrorNull "status")
     | Some r =>
       if bool_decide (status r = Some 1%Z) then Returned true
       else Returned false
     end).

(** [config.appleStore.partNumber] and [config.appleStore.storeNumber]. *)
Variable partNumber storeNumber : string.

Definition newline : string := String (ascii_of_nat 10) "".

Definition notificationMessage (stockData : StockData.t) : string :=
  "Part: " +:+ partNumber +:+ newline +:+
  "Store: " +:+ strOrElse (StockData.storeName stockData) storeNumber
            +:+ newline +:+
  "Status: " +:+ StockData.message stockData +:+ newline +:+ newline +:+
  "Check now: https://www.apple.com/my/shop".

Definition notifyStockAvailable (stockData : StockData.t) : bool :=
  sendNotification "iPhone Stock Available!"
                   (notificationMessage stockData) "high".
End Service.
End Pushover.

(** ** [loadConfig]

    [config.yml] as [yaml.load] returns it, typed after the keys read, the
    environment, and what reading the file comes to.  The document and each
    of its sections may be [undefined] (an empty file, a key that is not
    there) or [null]; reading a property of either throws a [TypeError] that
    names which.  An error carries its [code] here, which the [catch] clause
    reads. *)
Module Config.
Inductive yamlValue (A : Type) : Type :=
| Undefined
| Null
| Value (a : A).
Arguments Undefined {A}.
Arguments Null {A}.
Arguments Value {A} a.

Record AppleStoreYaml := {
  baseUrl : option string;
  params : option (list (string * string));
}.
Record MonitoringYaml := { intervalMs : option Z }.
Record PushoverYaml := { apiUrl : option string }.
Record LoggingYaml := { enabled : bool; level : string }.

Record Yaml := {
  appleStore : yamlValue AppleStoreYaml;
  monitoring : yamlValue MonitoringYaml;
  pushover : yamlValue PushoverYaml;
  logging : option LoggingYaml;
}.

Record Error := { code : option string; message : string }.

Inductive fileRead :=
| Contents (yamlConfig : yamlValue Yaml)
| Failed (error : Error).

(** [process.env.PORT || 3000] is a string of the environment or the
    number 3000. *)
Inductive port := PortEnv (value : string) | PortDefault.

Record t := {
  cfg_baseUrl : option string;
  cfg_params : option (list (string * string));
  cfg_partNumber : option string;
  cfg_storeNumber : option string;
  cfg_intervalMs : option Z;
  cfg_apiUrl : option string;
  cfg_apiKey : option string;
  cfg_userKey : option string;
  cfg_port : port;
  cfg_logging : option LoggingYaml;
}.

Definition requiredEnvVars : list string :=
  ["PUSHOVER_API_KEY"; "PUSHOVER_USER_KEY"; "PART_NUMBER"; "STORE_NUMBER"].

(** [!process.env[varName]]: the variable is not set or is empty. *)
Definition unset (env : gmap string string) (varName : string) : bool :=
  match env !! varName with
  | Some v => String.eqb v ""
  | None => true
  end.

Definition join (sep : string) (l : list string) : string :=
  match l with
  | [] => ""
  | x :: l' => fold_left (fun acc y => acc +:+ sep +:+ y) l' x
  end.

(** The [TypeError] of reading the property [prop] of [undefined] or of
    [null]. *)
Definition typeError (of_ prop : string) : Error :=
  {| code := None;
     message := "Cannot read properties of " +:+ of_ +:+ " (reading '"
                +:+ prop +:+ "')" |}.

(** [x.prop], for the continuation [k] of the value of [x]. *)
Definition reading {A B} (x : yamlValue A) (prop : string)
    (k : A -> B + Error) : B + Error :=
  match x with
  | Undefined => inr (typeError "undefined" prop)
  | Null => inr (typeError "null" prop)
  | Value a => k a
  end.

(** The body of the [try] block. *)
Definition loadConfig_try (env : gmap string string) (file : fileRead)
  : t + Error :=
  match file with
  | Failed error => inr error
  | Contents yamlConfig_ =>
    reading yamlConfig_ "appleStore" (fun yamlConfig =>
    reading (appleStore yamlConfig) "baseUrl" (fun appleStore_ =>
    reading (monitoring yamlConfig) "intervalMs" (fun monitoring_ =>
    reading (pushover yamlConfig) "apiUrl" (fun pushover_ =>
      let config :=
        {| cfg_baseUrl := baseUrl appleStore_;
           cfg_params := params appleStore_;
           cfg_partNumber := env !! "PART_NUMBER";
           cfg_storeNumber := env !! "STORE_NUMBER";
           cfg_intervalMs := intervalMs monitoring_;
           cfg_apiUrl := apiUrl pushover_;
           cfg_apiKey := env !! "PUSHOVER_API_KEY";
           cfg_userKey := env !! "PUSHOVER_USER_KEY";
           cfg_port :=
             if unset env "PORT" then PortDefault
             else PortEnv (default "" (env !! "PORT"));
           cfg_logging := logging yamlConfig |} in
      let missingVars := filter (fun v => unset env v = true)
                                requiredEnvVars in
      if (0 <? length missingVars)%nat then
        inr {| code := None;
               message :=
                 "Missing required environment variables: "
                 +:+ join ", " missingVars +:+ Pushover.newline +:+
                 "Please create a .env file based on .env.example" |}
      else inl config))))
  end.

Definition loadConfig (env : gmap string string) (file : fileRead)
  : t + Error :=
  match loadConfig_try env file with
  | inl config => inl config
  | inr error =>
    if bool_decide (code error = Some "ENOENT") then
      inr {| code := None;
             message := "config.yml not found. " +:+
                        "Please create it in the project root." |}
    else inr error
  end.
End Config.

(** ** Facts about strings *)

Lemma prefix_spec (t s : string) :
  String.prefix t s = true <-> exists post, s = t +:+ post.
Proof.
  revert s. induction t as [|c t IH]; intros s; simpl.
  - split; [intros _; exists s; reflexivity | intros _; now destruct s].
  - destruct s as [|d s]; simpl.
    + split; [discriminate | intros [post H]; discriminate].
    + destruct (Ascii.ascii_dec c d) as [->|Hne].
      * rewrite IH. split; intros [post H]; exists post.
        -- now rewrite H.
        -- now inversion H.
      * split; [discriminate | intros [post H]; inversion H; congruence].
Qed.

Lemma includes_spec (s t : string) :
  includes s t = true <-> exists pre post, s = pre +:+ t +:+ post.
Proof.
  induction s as [|c s IH].
  - change (includes "" t) with (String.prefix t "" || false).
    rewrite orb_false_r, prefix_spec. split.
    + intros [post H]. exists "", post. exact H.
    + intros [pre [post H]]. destruct pre; [exists post; exact H | discriminate].
  - change (includes (String c s) t)
      with (String.prefix t (String c s) || includes s t).
    rewrite orb_true_iff, prefix_spec, IH. split.
    + intros [[post H] | [pre [post H]]].
      * exists "", post. exact H.
      * exists (String c pre), post. simpl. now rewrite H.
    + intros [pre [post H]]. destruct pre as [|c' pre]; simpl in H.
      * left. exists post. exact H.
      * right. exists pre, post. now inversion H.
Qed.

Lemma toLowerCase_app (s t : string) :
  toLowerCase (s +:+ t) = toLowerCase s +:+ toLowerCase t.
Proof. induction s as [|c s IH]; simpl; [reflexivity | now rewrite IH]. Qed.

Lemma toLowerCase_split (q a b : string) :
  toLowerCase q = a +:+ b ->
  exists a' b', q = a' +:+ b' /\ toLowerCase a' = a /\ toLowerCase b' = b.
Proof.
  revert q. induction a as [|c a IH]; intros q H; simpl in H.
  - exists "", q. auto.
  - destruct q as [|d q]; simpl in H; [discriminate|].
    inversion H as [[Hc Hq]]. destruct (IH q Hq) as (a' & b' & -> & Ha & Hb).
    exists (String d a'), b'. simpl. rewrite Ha. auto.
Qed.

Lemma isUpper_bounds (c : ascii) :
  isUpper c = true <-> (65 <= nat_of_ascii c <= 90)%nat.
Proof.
  unfold isUpper. rewrite andb_true_iff, !Nat.leb_le. tauto.
Qed.

Lemma nat_of_lowerChar (c : ascii) :
  isUpper c = true -> nat_of_ascii (lowerChar c) = (nat_of_ascii c + 32)%nat.
Proof.
  intros H. unfold lowerChar. rewrite H.
  apply isUpper_bounds in H. apply nat_ascii_embedding. lia.
Qed.

Lemma lowerChar_not_upper (c : ascii) : isUpper (lowerChar c) = false.
Proof.
  destruct (isUpper c) eqn:E.
  - apply not_true_is_false. intros H. apply isUpper_bounds in H.
    rewrite (nat_of_lowerChar _ E) in H. apply isUpper_bounds in E. lia.
  - unfold lowerChar. now rewrite E.
Qed.

Lemma lowerChar_idem (c : ascii) : lowerChar (lowerChar c) = lowerChar c.
Proof.
  unfold lowerChar at 1. now rewrite lowerChar_not_upper.
Qed.

Lemma sameLetter_lowerChar (c d : ascii) :
  sameLetter c d <-> lowerChar c = lowerChar d.
Proof.
  split.
  - intros [-> | [[_ ->] | [_ ->]]];
      [reflexivity | now rewrite lowerChar_idem | now rewrite lowerChar_idem].
  - intros H. unfold sameLetter.
    destruct (isUpper c) eqn:Ec, (isUpper d) eqn:Ed.
    + left. apply (f_equal nat_of_ascii) in H.
      rewrite !nat_of_lowerChar in H by assumption.
      rewrite <- (ascii_nat_embedding c), <- (ascii_nat_embedding d).
      f_equal. lia.
    + right; left. split; [reflexivity|].
      rewrite H. unfold lowerChar. now rewrite Ed.
    + right; right. split; [reflexivity|].
      rewrite <- H. unfold lowerChar. now rewrite Ec.
    + left. unfold lowerChar in H. now rewrite Ec, Ed in H.
Qed.

Lemma equalsIgnoreCase_lower (s t : string) :
  equalsIgnoreCase s t <-> toLowerCase s = toLowerCase t.
Proof.
  split.
  - induction 1 as [|c d s t Hcd _ IH]; simpl; [reflexivity|].
    apply sameLetter_lowerChar in Hcd. now rewrite Hcd, IH.
  - revert t. induction s as [|c s IH]; intros [|d t] H; simpl in H;
      try discriminate.
    + constructor.
    + inversion H. constructor; [now apply sameLetter_lowerChar | auto].
Qed.

(** [s.toLowerCase().includes(p)], for a phrase [p] already in lower case,
    is the case-insensitive occurrence of [p] in [s]. *)
Lemma includes_lower_spec (s p : string) :
  toLowerCase p = p ->
  includes (toLowerCase s) p = true <-> containsIgnoreCase s p.
Proof.
  intros Hp. rewrite includes_spec. unfold containsIgnoreCase. split.
  - intros (pre & post & H).
    apply toLowerCase_split in H as (pre' & rest & -> & <- & H).
    apply toLowerCase_split in H as (mid & post' & -> & Hm & <-).
    exists pre', mid, post'. split; [reflexivity|].
    apply equalsIgnoreCase_lower. now rewrite Hp.
  - intros (pre & mid & post & -> & H). apply equalsIgnoreCase_lower in H.
    exists (toLowerCase pre), (toLowerCase post).
    now rewrite !toLowerCase_app, H, Hp.
Qed.

Lemma strOr_nonempty (a b : string) : b <> "" -> strOr a b <> "".
Proof.
  intros Hb. unfold strOr. destruct (String.eqb_spec a ""); assumption.
Qed.

(** ** The parser *)

Lemma strOr_empty (a : string) : strOr a "" = a.
Proof. unfold strOr. now destruct (String.eqb_spec a ""). Qed.

Lemma strOrElse_empty (x : option string) :
  strOrElse x "" = orElse x "".
Proof. destruct x; simpl; [apply strOr_empty | reflexivity]. Qed.

Lemma strOrElse_nonempty (x : option string) (d : string) :
  d <> "" -> strOrElse x d <> "".
Proof. destruct x; simpl; [apply strOr_nonempty | auto]. Qed.

Section ParserFacts.
Variable partNumber : string.

(** The parser, case by case on what the paths of the payload hold. *)
Lemma parse_null :
  _parseResponse partNumber None =
  Threw ("Response parsing failed: " +:+ typeErrorNull "body").
Proof. reflexivity. Qed.

Lemma parse_no_stores (d : Payload) :
  storeList (Some d) = None \/ storeList (Some d) = Some [] ->
  _parseResponse partNumber (Some d) = Returned (noStoreData (Some d)).
Proof.
  unfold _parseResponse, _parseResponse_try, storeList. simpl.
  destruct (body d) as [b|]; simpl; [|reflexivity].
  destruct (content b) as [c|]; simpl; [|reflexivity].
  destruct (pickupMessage c) as [pm|]; simpl; [|reflexivity].
  intros [-> | ->]; reflexivity.
Qed.

Lemma storeList_some (d : Payload) (ss : list (option Store)) :
  storeList (Some d) = Some ss ->
  orElse (body d ?. content ?. pickupMessage ?. stores) [] = ss.
Proof.
  unfold storeList. simpl.
  destruct (body d) as [b|]; simpl; [|discriminate].
  destruct (content b) as [c|]; simpl; [|discriminate].
  destruct (pickupMessage c) as [pm|]; simpl; [|discriminate].
  now intros ->.
Qed.

Lemma parse_store_null (d : Payload) (rest : list (option Store)) :
  storeList (Some d) = Some (None :: rest) ->
  _parseResponse partNumber (Some d) =
  Threw ("Response parsing failed: " +:+ typeErrorNull "partsAvailability").
Proof.
  intros H. unfold _parseResponse, _parseResponse_try.
  now rewrite (storeList_some _ _ H).
Qed.

Lemma parse_store (d : Payload) (store : Store) (rest : list (option Store)) :
  storeList (Some d) = Some (Some store :: rest) ->
  _parseResponse partNumber (Some d) =
  Returned match partEntry partNumber (Some d) with
           | None => partNotFound (Some d)
           | Some pd => quoted (Some d) store pd
           end.
Proof.
  intros H. unfold _parseResponse, _parseResponse_try, partEntry.
  rewrite (storeList_some _ _ H), H. simpl.
  destruct (partsAvailability store) as [pa|]; simpl.
  - destruct (getProp pa partNumber) as [pd|]; simpl; [|reflexivity].
    unfold quoted. now rewrite !strOrElse_empty.
  - reflexivity.
Qed.

Lemma partEntry_store (data : option Payload) (pd : PartData) :
  partEntry partNumber data = Some pd ->
  exists d store rest,
    data = Some d /\ storeList data = Some (Some store :: rest).
Proof.
  unfold partEntry. destruct data as [d|]; [|discriminate].
  destruct (storeList (Some d)) as [[|[store|] rest]|]; simpl;
    try discriminate.
  intros _. now exists d, store, rest.
Qed.

Lemma parse_part (data : option Payload) (pd : PartData) :
  partEntry partNumber data = Some pd ->
  exists d store rest,
    data = Some d /\ storeList data = Some (Some store :: rest) /\
    _parseResponse partNumber data = Returned (quoted data store pd).
Proof.
  intros H. destruct (partEntry_store _ _ H) as (d & store & rest & -> & Hs).
  exists d, store, rest. split; [reflexivity|]. split; [assumption|].
  now rewrite (parse_store _ _ _ Hs), H.
Qed.

(** Every payload falls in one of four cases. *)
Lemma payload_cases (data : option Payload) :
  containerAbsent data \/ storeEntryAbsent data \/ storeListEmpty data \/
  exists d store rest,
    data = Some d /\ storeList data = Some (Some store :: rest).
Proof.
  destruct data as [d|]; [|now left]. right.
  destruct (storeList (Some d)) as [[|[store|] rest]|] eqn:E.
  - right; left. split; [discriminate | now right].
  - right; right. now exists d, store, rest.
  - left. now exists rest.
  - right; left. split; [discriminate | now left].
Qed.
End ParserFacts.

Section ParserTheorems.
Variable partNumber : string.

Lemma quoteMatches_entry (data : option Payload) :
  quoteMatches partNumber data ->
  exists pd, partEntry partNumber data = Some pd.
Proof.
  intros (q & H & _). unfold quoteText in H.
  destruct (partEntry partNumber data) as [pd|]; [eauto | discriminate].
Qed.

Lemma available_quoted (data : option Payload) (store : Store)
    (pd : PartData) :
  partEntry partNumber data = Some pd ->
  StockData.available (quoted data store pd) = true <->
  quoteMatches partNumber data.
Proof.
  intros H. unfold quoteMatches, quoteText. rewrite H. simpl.
  destruct (pickupSearchQuote pd) as [q|]; simpl.
  - rewrite includes_lower_spec by reflexivity. split.
    + intros Hq. now exists q.
    + now intros (q' & [= <-] & Hq).
  - split; [discriminate | now intros (q' & [=] & _)].
Qed.

Lemma parse_returned_cases (data : option Payload) (s : StockData.t) :
  _parseResponse partNumber data = Returned s ->
  (storeListEmpty data /\ s = noStoreData data) \/
  (partMissing partNumber data /\ s = partNotFound data) \/
  (exists store pd,
     partEntry partNumber data = Some pd /\ s = quoted data store pd).
Proof.
  intros H.
  destruct (payload_cases data)
    as [-> | [[rest Hs] | [[Hd He] | (d & store & rest & -> & Hs)]]].
  - discriminate.
  - destruct data as [d|]; [|discriminate].
    now rewrite (parse_store_null _ _ _ Hs) in H.
  - destruct data as [d|]; [|congruence].
    rewrite (parse_no_stores _ _ He) in H. left.
    split; [now split | congruence].
  - rewrite (parse_store _ _ _ _ Hs) in H. right.
    destruct (partEntry partNumber (Some d)) as [pd|] eqn:E.
    + right. exists store, pd. split; congruence.
    + left. split; [|congruence]. split; [eauto | assumption].
Qed.
End ParserTheorems.

(** C2.  A payload whose quote text (the [pickupSearchQuote] of the target
    part in the first store) contains "available today" in any case is
    parsed, to a snapshot with [available = true]; and whenever the parser
    returns a snapshot, its [available] is [true] exactly when the quote text
    contains the phrase, so it is [false] for every other payload. *)
Theorem parse_available_iff_quote_matches
    (partNumber : string) (data : option Payload) :
  (quoteMatches partNumber data ->
   exists s, _parseResponse partNumber data = Returned s /\
             StockData.available s = true) /\
  (forall s, _parseResponse partNumber data = Returned s ->
             (StockData.available s = true <-> quoteMatches partNumber data) /\
             (~ quoteMatches partNumber data ->
              StockData.available s = false)).
Proof.
  assert (Hiff : forall s, _parseResponse partNumber data = Returned s ->
            (StockData.available s = true <-> quoteMatches partNumber data)).
  { intros s H.
    destruct (parse_returned_cases _ _ _ H)
      as [[[_ He] ->] | [[[_ Hp] ->] | (store & pd & Hp & ->)]].
    - split; [discriminate|]. intros Hq.
      apply quoteMatches_entry in Hq as [pd Hq]. unfold partEntry in Hq.
      destruct He as [He | He]; rewrite He in Hq; discriminate.
    - split; [discriminate|]. intros Hq.
      apply quoteMatches_entry in Hq as [pd Hq]. congruence.
    - now apply available_quoted. }
  split.
  - intros Hq. destruct (quoteMatches_entry _ _ Hq) as [pd Hp].
    destruct (parse_part _ _ _ Hp) as (d & store & rest & -> & _ & H).
    exists (quoted (Some d) store pd). split; [assumption|].
    now apply Hiff.
  - intros s H. split; [now apply Hiff|].
    intros Hn. apply not_true_is_false. intros Ha. apply Hn.
    now apply (Hiff s H).
Qed.

Lemma partEntry_payloadWith (partNumber : string) (name : option string)
    (pd : option PartData) :
  partEntry partNumber (payloadWith partNumber name pd) = pd.
Proof.
  unfold partEntry, payloadWith, getProp. simpl.
  now rewrite lookup_singleton_eq.
Qed.

Lemma containsIgnoreCase_example :
  containsIgnoreCase "Available Today at Apple The Exchange TRX"
                     "available today".
Proof. apply includes_lower_spec; reflexivity. Qed.

Lemma parse_available_iff_quote_matches_witness :
  exists s,
    _parseResponse "MFYM4X/A"
      (payloadWith "MFYM4X/A" (Some "Apple The Exchange TRX")
         (Some {| pickupSearchQuote :=
                    Some "Available Today at Apple The Exchange TRX";
                  storePickupQuote := None |})) = Returned s /\
    StockData.available s = true.
Proof.
  apply (proj1 (parse_available_iff_quote_matches "MFYM4X/A" _)).
  exists "Available Today at Apple The Exchange TRX". split.
  - unfold quoteText. now rewrite partEntry_payloadWith.
  - exact containsIgnoreCase_example.
Defined.

(** On the typed payload the parser throws exactly when the payload itself
    is missing ([null]) or the first entry of the store list is [null]. *)
Lemma typed_parse_fails_iff (partNumber : string) (data : option Payload) :
  (exists message, _parseResponse partNumber data = Threw message) <->
  containerAbsent data \/ storeEntryAbsent data.
Proof.
  split.
    + intros [e H].
      destruct (payload_cases data)
        as [Hc | [Hs | [[Hd He] | (d & store & rest & -> & Hs)]]];
        [now left | now right | |].
      * destruct data as [d|]; [|congruence].
        now rewrite (parse_no_stores _ _ He) in H.
      * now rewrite (parse_store _ _ _ _ Hs) in H.
    + intros [-> | [rest Hs]].
      * eexists. apply parse_null.
      * destruct data as [d|]; [|discriminate].
        eexists. apply (parse_store_null _ _ _ Hs).
Qed.

(** On the typed payload the message of a snapshot is never empty. *)
Lemma typed_message_nonempty
    (partNumber : string) (data : option Payload) (s : StockData.t) :
  _parseResponse partNumber data = Returned s -> StockData.message s <> "".
Proof.
  intros H.
  destruct (parse_returned_cases _ _ _ H)
    as [[_ ->] | [[_ ->] | (store & pd & _ & ->)]]; [easy | easy |].
  simpl. now do 2 apply strOr_nonempty.
Qed.




(** On the typed payload a snapshot has a store name exactly when the part
    has an entry, and then the name of the first store, or "Unknown Store"
    when that is missing or empty. *)
Lemma typed_store_name
    (partNumber : string) (data : option Payload) (s : StockData.t) :
  _parseResponse partNumber data = Returned s ->
  StockData.rawData s = data /\
  (StockData.storeName s = None <-> partEntry partNumber data = None) /\
  (forall name,
     StockData.storeName s = Some name ->
     name <> "" /\
     exists store rest,
       storeList data = Some (Some store :: rest) /\
       name = strOrElse (storeName store) "Unknown Store") /\
  (StockData.available s = true -> StockData.storeName s <> None).
Proof.
  intros H.
  destruct (parse_returned_cases _ _ _ H)
    as [[[_ He] ->] | [[[_ Hp] ->] | (store & pd & Hp & ->)]]; simpl.
  - assert (partEntry partNumber data = None)
      by (unfold partEntry; now destruct He as [-> | ->]).
    repeat split; auto; discriminate.
  - repeat split; auto; discriminate.
  - split; [reflexivity|]. split; [|split].
    + rewrite Hp. split; discriminate.
    + intros name [= <-]. split; [now apply strOrElse_nonempty|].
      destruct (parse_part _ _ _ Hp) as (d & store' & rest & -> & Hs & H').
      assert (Heq : quoted (Some d) store' pd = quoted (Some d) store pd)
        by congruence.
      apply (f_equal StockData.storeName) in Heq. simpl in Heq.
      exists store', rest. split; [assumption | congruence].
    + discriminate.
Qed.

(** ** The parser on any JSON value *)

Section JsFacts.
Variable inherits : Js.kind -> string -> bool.
Variable partNumber : string.

Local Abbreviation read := (Js.read inherits) (only parsing).
Local Abbreviation get := (Js.get inherits) (only parsing).

Lemma getOpt_read (v : Js.value) (key : string) :
  Js.getOpt inherits v key = Returned (read v key).
Proof.
  unfold Js.read. destruct v as [|j|name]; [reflexivity| |reflexivity].
  now destruct j.
Qed.

Lemma get_read (v : Js.value) (key : string) :
  Js.nullish v = false -> get v key = Returned (read v key).
Proof.
  intros H. rewrite <- getOpt_read.
  destruct v as [|j|name]; [discriminate| |reflexivity].
  now destruct j.
Qed.

Lemma get_nullish (v : Js.value) (key : string) :
  Js.nullish v = true ->
  get v key = Threw (match v with
                     | Js.Undefined => typeErrorUndefined key
                     | _ => typeErrorNull key
                     end).
Proof.
  destruct v as [|j|name]; [reflexivity| |discriminate].
  now destruct j.
Qed.

Lemma truthy_not_nullish (v : Js.value) :
  Js.truthy v = true -> Js.nullish v = false.
Proof.
  destruct v as [|j|name]; [discriminate| |reflexivity]. now destruct j.
Qed.

Lemma or_not_nullish (a b : Js.value) :
  Js.nullish b = false -> Js.nullish (Js.or a b) = false.
Proof.
  intros H. unfold Js.or. destruct (Js.truthy a) eqn:Ha; [|assumption].
  now apply truthy_not_nullish.
Qed.

Lemma bind_returned {A B} (f : A -> completion B) (a : A) :
  mbind f (Returned a) = f a.
Proof. reflexivity. Qed.

Lemma bind_threw {A B} (f : A -> completion B) (e : string) :
  mbind f (Threw e) = Threw e.
Proof. reflexivity. Qed.

(** The parser, by where the payload leaves it. *)
Lemma parse_try_located (data : Js.json) :
  Js._parseResponse_try inherits partNumber data =
  match Js.locate inherits partNumber data with
  | Js.NoPayload => Threw (typeErrorNull "body")
  | Js.NoStores =>
    Returned {| Js.StockData.available := false;
                Js.StockData.message :=
                  Js.Json (Js.Text "No store data available");
                Js.StockData.storeName := None;
                Js.StockData.rawData := data |}
  | Js.NoStore store =>
    Threw (match store with
           | Js.Undefined => typeErrorUndefined "partsAvailability"
           | _ => typeErrorNull "partsAvailability"
           end)
  | Js.NoPart _ =>
    Returned {| Js.StockData.available := false;
                Js.StockData.message :=
                  Js.Json (Js.Text "Part not found in store data");
                Js.StockData.storeName := None;
                Js.StockData.rawData := data |}
  | Js.Part store partData =>
    lowered ← Js.toLowerCaseOf "pickupSearchQuote"
                (Js.quote inherits partData "pickupSearchQuote");
    Js.toText (Js.or (Js.quote inherits partData "pickupSearchQuote")
                     (Js.quote inherits partData "storePickupQuote"));;
    Returned
      {| Js.StockData.available := includes lowered "available today";
         Js.StockData.message := Js.messageOf inherits partData;
         Js.StockData.storeName :=
           Some (Js.or (read store "storeName")
                       (Js.Json (Js.Text "Unknown Store")));
         Js.StockData.rawData := data |}
  end.
Proof.
  unfold Js._parseResponse_try, Js.locate. cbv zeta.
  destruct (Js.nullish (Js.Json data)) eqn:Hdata.
  { rewrite get_nullish by assumption. now destruct data. }
  rewrite (get_read _ "body" Hdata), bind_returned.
  do 3 rewrite getOpt_read, bind_returned.
  fold (Js.storesOf inherits data).
  rewrite (get_read _ "length"), bind_returned
    by (apply or_not_nullish; reflexivity).
  rewrite (get_read _ "0"), bind_returned
    by (apply or_not_nullish; reflexivity).
  set (store := read (Js.storesOf inherits data) "0").
  assert (Hrest :
    (partsAvailability0 ← get store "partsAvailability";
     partData ← get (Js.or partsAvailability0 (Js.Json (Js.Object [])))
                    partNumber;
     if negb (Js.truthy partData) then
       Returned {| Js.StockData.available := false;
                   Js.StockData.message :=
                     Js.Json (Js.Text "Part not found in store data");
                   Js.StockData.storeName := None;
                   Js.StockData.rawData := data |}
     else
       pickupSearchQuote0 ← get partData "pickupSearchQuote";
       storePickupQuote0 ← get partData "storePickupQuote";
       lowered ← Js.toLowerCaseOf "pickupSearchQuote"
                   (Js.or pickupSearchQuote0 (Js.Json (Js.Text "")));
       Js.toText (Js.or (Js.or pickupSearchQuote0 (Js.Json (Js.Text "")))
                        (Js.or storePickupQuote0 (Js.Json (Js.Text ""))));;
       storeName0 ← get store "storeName";
       Returned
         {| Js.StockData.available := includes lowered "available today";
            Js.StockData.message :=
              Js.or (Js.or (Js.or pickupSearchQuote0 (Js.Json (Js.Text "")))
                           (Js.or storePickupQuote0 (Js.Json (Js.Text ""))))
                    (Js.Json (Js.Text "Unknown status"));
            Js.StockData.storeName :=
              Some (Js.or storeName0 (Js.Json (Js.Text "Unknown Store")));
            Js.StockData.rawData := data |}) =
    match (if Js.nullish store then Js.NoStore store
           else if Js.truthy (Js.partDataOf inherits partNumber store)
                then Js.Part store (Js.partDataOf inherits partNumber store)
                else Js.NoPart store) with
    | Js.NoPayload => Threw (typeErrorNull "body")
    | Js.NoStores =>
      Returned {| Js.StockData.available := false;
                  Js.StockData.message :=
                    Js.Json (Js.Text "No store data available");
                  Js.StockData.storeName := None;
                  Js.StockData.rawData := data |}
    | Js.NoStore store =>
      Threw (match store with
             | Js.Undefined => typeErrorUndefined "partsAvailability"
             | _ => typeErrorNull "partsAvailability"
             end)
    | Js.NoPart _ =>
      Returned {| Js.StockData.available := false;
                  Js.StockData.message :=
                    Js.Json (Js.Text "Part not found in store data");
                  Js.StockData.storeName := None;
                  Js.StockData.rawData := data |}
    | Js.Part store partData =>
      lowered ← Js.toLowerCaseOf "pickupSearchQuote"
                  (Js.quote inherits partData "pickupSearchQuote");
      Js.toText (Js.or (Js.quote inherits partData "pickupSearchQuote")
                       (Js.quote inherits partData "storePickupQuote"));;
      Returned
        {| Js.StockData.available := includes lowered "available today";
           Js.StockData.message := Js.messageOf inherits partData;
           Js.StockData.storeName :=
             Some (Js.or (read store "storeName")
                         (Js.Json (Js.Text "Unknown Store")));
           Js.StockData.rawData := data |}
    end).
  { destruct (Js.nullish store) eqn:Hs.
    { rewrite (get_nullish _ "partsAvailability" Hs). reflexivity. }
    rewrite (get_read _ "partsAvailability" Hs), bind_returned.
    rewrite (get_read _ partNumber), bind_returned
      by (apply or_not_nullish; reflexivity).
    fold (Js.partDataOf inherits partNumber store).
    destruct (Js.truthy (Js.partDataOf _ _ _)) eqn:Hp; [|reflexivity].
    simpl negb. cbv iota.
    rewrite (get_read _ "pickupSearchQuote"), bind_returned
      by (now apply truthy_not_nullish).
    rewrite (get_read _ "storePickupQuote"), bind_returned
      by (now apply truthy_not_nullish).
    rewrite (get_read _ "storeName" Hs).
    unfold Js.messageOf, Js.quote.
    destruct (Js.toLowerCaseOf _ _) as [lowered|e];
      [|rewrite !bind_threw; reflexivity].
    rewrite !bind_returned.
    destruct (Js.toText _) as [[]|e]; [|rewrite !bind_threw; reflexivity].
    rewrite !bind_returned. reflexivity. }
  rewrite Hrest.
  destruct (read (Js.storesOf inherits data) "length")
    as [|[| |[| |]| | |]|]; reflexivity.
Qed.
End JsFacts.

Section JsParser.
Variable inherits : Js.kind -> string -> bool.
Variable partNumber : string.

Local Abbreviation read := (Js.read inherits) (only parsing).
Local Abbreviation parse := (Js._parseResponse inherits partNumber)
  (only parsing).
Local Abbreviation locate := (Js.locate inherits partNumber) (only parsing).
Local Abbreviation quote := (Js.quote inherits) (only parsing).

Lemma toText_threw (v : Js.value) (e : string) :
  Js.toText v = Threw e -> e = "Cannot convert object to primitive value".
Proof.
  unfold Js.toText. destruct v as [|j|]; try discriminate.
  destruct (Js.unprintable j); [now intros [= <-] | discriminate].
Qed.

Lemma parse_located (data : Js.json) :
  parse data =
  match locate data with
  | Js.NoPayload =>
    Threw ("Response parsing failed: " +:+ typeErrorNull "body")
  | Js.NoStores =>
    Returned {| Js.StockData.available := false;
                Js.StockData.message :=
                  Js.Json (Js.Text "No store data available");
                Js.StockData.storeName := None;
                Js.StockData.rawData := data |}
  | Js.NoStore store =>
    Threw ("Response parsing failed: " +:+
           match store with
           | Js.Undefined => typeErrorUndefined "partsAvailability"
           | _ => typeErrorNull "partsAvailability"
           end)
  | Js.NoPart _ =>
    Returned {| Js.StockData.available := false;
                Js.StockData.message :=
                  Js.Json (Js.Text "Part not found in store data");
                Js.StockData.storeName := None;
                Js.StockData.rawData := data |}
  | Js.Part store partData =>
    match quote partData "pickupSearchQuote" with
    | Js.Json (Js.Text pickupSearchQuote) =>
      if Js.malformedQuotes inherits partData then
        Threw ("Response parsing failed: " +:+
               "Cannot convert object to primitive value")
      else
        Returned
          {| Js.StockData.available :=
               includes (toLowerCase pickupSearchQuote) "available today";
             Js.StockData.message := Js.messageOf inherits partData;
             Js.StockData.storeName :=
               Some (Js.or (read store "storeName")
                           (Js.Json (Js.Text "Unknown Store")));
             Js.StockData.rawData := data |}
    | _ =>
      Threw ("Response parsing failed: " +:+
             "pickupSearchQuote.toLowerCase is not a function")
    end
  end.
Proof.
  unfold Js._parseResponse. rewrite parse_try_located.
  destruct (Js.locate _ _ _) as [| |store|store|store partData];
    try reflexivity.
  unfold Js.malformedQuotes.
  destruct (Js.quote inherits partData "pickupSearchQuote")
    as [|[| | |pickupSearchQuote| |]|]; try reflexivity.
  change (Js.toLowerCaseOf _ (Js.Json (Js.Text pickupSearchQuote)))
    with (Returned (toLowerCase pickupSearchQuote)).
  rewrite bind_returned. simpl negb. rewrite orb_false_l.
  destruct (Js.toText _) as [[]|e] eqn:Ht; [reflexivity|].
  now rewrite (toText_threw _ _ Ht).
Qed.

Lemma locate_no_payload (data : Js.json) :
  locate data = Js.NoPayload <-> data = Js.Null.
Proof.
  unfold Js.locate. destruct data; simpl; split; try discriminate;
    try reflexivity;
    destruct (Js.read _ _ _) as [|[| |[| |]| | |]|]; try discriminate;
    repeat match goal with
           | |- context [if ?c then _ else _] => destruct c
           end; discriminate.
Qed.

Lemma locate_no_store (data : Js.json) (store : Js.value) :
  locate data = Js.NoStore store ->
  store = read (Js.storesOf inherits data) "0" /\
  (store = Js.Undefined \/ store = Js.Json Js.Null).
Proof.
  unfold Js.locate. destruct (Js.nullish (Js.Json data)); [discriminate|].
  cbv zeta.
  destruct (Js.nullish (read (Js.storesOf inherits data) "0")) eqn:Hs.
  - intros H.
    assert (Heq : store = read (Js.storesOf inherits data) "0").
    { destruct (read (Js.storesOf inherits data) "length")
        as [|[| |[| |]| | |]|]; congruence. }
    split; [assumption|]. rewrite Heq.
    destruct (read (Js.storesOf inherits data) "0") as [|[]|];
      try discriminate; auto.
  - destruct (Js.truthy _);
      destruct (read (Js.storesOf inherits data) "length")
        as [|[| |[| |]| | |]|]; discriminate.
Qed.

Lemma locate_part (data : Js.json) (store partData : Js.value) :
  locate data = Js.Part store partData ->
  store = read (Js.storesOf inherits data) "0" /\
  partData = Js.partDataOf inherits partNumber store /\
  Js.nullish store = false /\ Js.truthy partData = true.
Proof.
  unfold Js.locate. destruct (Js.nullish (Js.Json data)); [discriminate|].
  cbv zeta.
  destruct (Js.nullish (read (Js.storesOf inherits data) "0")) eqn:Hs.
  - destruct (read (Js.storesOf inherits data) "length")
      as [|[| |[| |]| | |]|]; discriminate.
  - destruct (Js.truthy _) eqn:Hp;
      destruct (read (Js.storesOf inherits data) "length")
        as [|[| |[| |]| | |]|]; try discriminate;
      intros [= <- <-]; auto.
Qed.

Lemma or_truthy (a b : Js.value) :
  Js.truthy b = true -> Js.truthy (Js.or a b) = true.
Proof. intros H. unfold Js.or. now destruct (Js.truthy a) eqn:Ha. Qed.

Lemma quote_text (partData : Js.value) (field : string) :
  Js.isText (quote partData field) = true <->
  Js.isText (read partData field) = true \/
  Js.truthy (read partData field) = false.
Proof.
  unfold Js.quote, Js.or.
  destruct (Js.truthy (read partData field)) eqn:Ht; simpl.
  - split; [now left | now intros [H | H]].
  - split; [now right | reflexivity].
Qed.
End JsParser.

Section JsInherited.
Variable inherits : Js.kind -> string -> bool.
Variable partNumber : string.

(** A part number that names an inherited member finds that member where
    the part entry should be; the member has no quote fields. *)
Lemma parse_inherited_part (data : Js.json) (store : Js.value)
    (name : string) :
  Js.readsOwn inherits ->
  Js.locate inherits partNumber data = Js.Part store (Js.Inherited name) ->
  Js._parseResponse inherits partNumber data =
  Returned {| Js.StockData.available := false;
              Js.StockData.message := Js.Json (Js.Text "Unknown status");
              Js.StockData.storeName :=
                Some (Js.or (Js.read inherits store "storeName")
                            (Js.Json (Js.Text "Unknown Store")));
              Js.StockData.rawData := data |}.
Proof.
  intros Hown Hl. rewrite parse_located, Hl.
  assert (Hq : forall field,
            field ∈ Js.fieldsRead ->
            Js.quote inherits (Js.Inherited name) field
            = Js.Json (Js.Text "")).
  { intros field Hin. unfold Js.quote, Js.read, Js.getOpt, Js.get,
      Js.inherited.
    now rewrite (Hown Js.OfInherited field Hin). }
  unfold Js.malformedQuotes, Js.messageOf.
  rewrite !Hq by (apply (bool_decide_unpack _); vm_compute; exact I).
  reflexivity.
Qed.
End JsInherited.


(** ** The typed payload and the parser on any JSON value

    On a payload of the documented shape, and for a part number that is not
    the name of a member objects inherit, the parser on JSON values does
    what [_parseResponse] on the typed payload does. *)

Lemma member_app (key : string) (l1 l2 : list (string * Js.json)) :
  Js.member key (l1 ++ l2) =
  match Js.member key l2 with
  | Some j => Some j
  | None => Js.member key l1
  end.
Proof.
  induction l1 as [|[name j] l1 IH]; simpl.
  - now destruct (Js.member key l2).
  - rewrite IH. destruct (Js.member key l2); [reflexivity|].
    reflexivity.
Qed.

Lemma member_in {A} (f : A -> Js.json) (key : string) (a : A)
    (l : list (string * A)) :
  NoDup l.*1 -> (key, a) ∈ l ->
  Js.member key (map (fun entry => (entry.1, f entry.2)) l) = Some (f a).
Proof.
  induction l as [|[name b] l IH]; intros Hnd Hin.
  - now apply elem_of_nil in Hin.
  - simpl in Hnd. apply NoDup_cons in Hnd as [Hname Hnd].
    apply elem_of_cons in Hin as [[= <- <-] | Hin]; simpl.
    + destruct (Js.member key _) as [later|] eqn:Hlater.
      * exfalso. apply Hname. clear -Hlater.
        induction l as [|[name b] l IH]; [discriminate|]. simpl in *.
        destruct (Js.member key _) as [x|].
        -- right. now apply IH.
        -- destruct (String.eqb_spec name key) as [->|Hne];
             [left | discriminate].
      * now rewrite String.eqb_refl.
    + now rewrite (IH Hnd Hin).
Qed.

Lemma member_not_in {A} (f : A -> Js.json) (key : string)
    (l : list (string * A)) :
  key ∉ l.*1 ->
  Js.member key (map (fun entry => (entry.1, f entry.2)) l) = None.
Proof.
  induction l as [|[name b] l IH]; intros Hnot; [reflexivity|].
  simpl in *. apply not_elem_of_cons in Hnot as [Hne Hnot].
  rewrite (IH Hnot). destruct (String.eqb_spec name key); congruence.
Qed.

Lemma member_parts (key : string) (parts : gmap string (option PartData)) :
  Js.member key (map (fun entry => (entry.1, jsonOfPartData entry.2))
                     (map_to_list parts))
  = jsonOfPartData <$> parts !! key.
Proof.
  destruct (parts !! key) as [pd|] eqn:Hk; simpl.
  - apply member_in; [apply NoDup_fst_map_to_list|].
    now apply elem_of_map_to_list.
  - apply member_not_in. intros Hin.
    apply list_elem_of_fmap in Hin as ([k v] & -> & Hin).
    apply elem_of_map_to_list in Hin. simpl in *. congruence.
Qed.

Lemma or_text (a b : string) :
  Js.or (Js.Json (Js.Text a)) (Js.Json (Js.Text b))
  = Js.Json (Js.Text (strOr a b)).
Proof. unfold Js.or, strOr. simpl. now destruct (String.eqb a ""). Qed.

Lemma strOr_assoc (a b c : string) :
  strOr (strOr a b) c = strOr a (strOr b c).
Proof.
  unfold strOr. destruct (String.eqb a "") eqn:Ha; [reflexivity|].
  now rewrite Ha.
Qed.

Ltac field_read :=
  apply (bool_decide_unpack _); vm_compute; exact I.

Section TypedPayload.
Variable inherits : Js.kind -> string -> bool.
Variable partNumber : string.
Hypothesis Hown : Js.readsOwn inherits.
Hypothesis Hpart : inherits Js.OfObject partNumber = false.

Local Abbreviation read := (Js.read inherits) (only parsing).

Lemma read_undefined (key : string) : read Js.Undefined key = Js.Undefined.
Proof. reflexivity. Qed.

Lemma read_null (key : string) : read (Js.Json Js.Null) key = Js.Undefined.
Proof. reflexivity. Qed.

Lemma read_object (members : list (string * Js.json)) (key : string) :
  inherits Js.OfObject key = false ->
  read (Js.Json (Js.Object members)) key =
  match Js.member key members with
  | Some j => Js.Json j
  | None => Js.Undefined
  end.
Proof.
  intros H. unfold Js.read, Js.getOpt, Js.get, Js.inherited. simpl.
  rewrite H. reflexivity.
Qed.

Lemma read_jsonMember {A} (f : A -> Js.json) (key : string) (x : option A) :
  key ∈ Js.fieldsRead ->
  read (Js.Json (Js.Object (jsonMember key f x))) key =
  match x with
  | Some a => Js.Json (f a)
  | None => Js.Undefined
  end.
Proof using Hown.
  intros Hin. rewrite read_object by now apply Hown.
  destruct x as [a|]; simpl; [|reflexivity]. now rewrite String.eqb_refl.
Qed.

Lemma storesOf_typed (d : Payload) :
  Js.storesOf inherits (jsonOfPayload (Some d)) =
  Js.Json (Js.Array
    (map jsonOfStore
         (orElse (body d ?. content ?. pickupMessage ?. stores) []))).
Proof using Hown.
  unfold Js.storesOf, jsonOfPayload.
  rewrite read_jsonMember by field_read.
  destruct (body d) as [b|]; [|reflexivity]. simpl optChain at 3.
  rewrite read_jsonMember by field_read.
  destruct (content b) as [c|]; [|reflexivity]. simpl optChain at 2.
  rewrite read_jsonMember by field_read.
  destruct (pickupMessage c) as [p|]; [|reflexivity]. simpl optChain.
  rewrite read_jsonMember by field_read.
  now destruct (stores p) as [l|].
Qed.

Lemma read_first (j : Js.json) (rest : list Js.json) :
  read (Js.Json (Js.Array (j :: rest))) "0" = Js.Json j.
Proof. reflexivity. Qed.

Lemma read_length (items : list Js.json) :
  read (Js.Json (Js.Array items)) "length"
  = Js.Json (Js.Number (Z.of_nat (length items))).
Proof. reflexivity. Qed.

Lemma partDataOf_typed (store : Store) :
  Js.partDataOf inherits partNumber (Js.Json (jsonOfStore (Some store))) =
  match orElse (partsAvailability store)
               (∅ : gmap string (option PartData)) !! partNumber with
  | Some pd => Js.Json (jsonOfPartData pd)
  | None => Js.Undefined
  end.
Proof using Hown Hpart.
  unfold Js.partDataOf, jsonOfStore.
  rewrite read_object
    by (apply Hown; field_read).
  rewrite member_app.
  destruct (partsAvailability store) as [parts|]; simpl.
  - unfold jsonOfParts. unfold Js.or. simpl.
    rewrite read_object by assumption.
    rewrite member_parts. now destruct (parts !! partNumber).
  - destruct (storeName store) as [name|]; simpl;
      unfold Js.or; simpl; now rewrite read_object by assumption.
Qed.

Lemma quote_typed (pd : PartData) (field : string) :
  field = "pickupSearchQuote" \/ field = "storePickupQuote" ->
  Js.quote inherits (Js.Json (jsonOfPartData (Some pd))) field =
  Js.Json (Js.Text
    (strOrElse (if String.eqb field "pickupSearchQuote"
                then pickupSearchQuote pd else storePickupQuote pd) "")).
Proof using Hown.
  intros Hfield. unfold Js.quote, jsonOfPartData.
  rewrite read_object
    by (apply Hown; destruct Hfield as [-> | ->]; field_read).
  rewrite member_app.
  destruct Hfield as [-> | ->];
    destruct (pickupSearchQuote pd) as [p|], (storePickupQuote pd) as [q|];
    simpl; unfold Js.or, strOr; simpl;
    try destruct (String.eqb p ""); try destruct (String.eqb q "");
    reflexivity.
Qed.

Lemma storeName_typed (store : Store) :
  Js.or (read (Js.Json (jsonOfStore (Some store))) "storeName")
        (Js.Json (Js.Text "Unknown Store"))
  = Js.Json (Js.Text (strOrElse (storeName store) "Unknown Store")).
Proof using Hown.
  unfold jsonOfStore.
  rewrite read_object
    by (apply Hown; field_read).
  rewrite member_app.
  destruct (storeName store) as [name|], (partsAvailability store);
    simpl; unfold Js.or, strOr; simpl;
    try destruct (String.eqb name ""); reflexivity.
Qed.

(** Where a typed payload leaves the parser. *)
Lemma locate_typed (data : option Payload) :
  Js.locate inherits partNumber (jsonOfPayload data) =
  match data with
  | None => Js.NoPayload
  | Some d =>
    match orElse (body d ?. content ?. pickupMessage ?. stores) [] with
    | [] => Js.NoStores
    | None :: _ => Js.NoStore (Js.Json Js.Null)
    | Some store :: _ =>
      match getProp (orElse (partsAvailability store)
                            (∅ : gmap string (option PartData)))
                    partNumber with
      | Some pd =>
        Js.Part (Js.Json (jsonOfStore (Some store)))
                (Js.Json (jsonOfPartData (Some pd)))
      | None => Js.NoPart (Js.Json (jsonOfStore (Some store)))
      end
    end
  end.
Proof using Hown Hpart.
  destruct data as [d|]; [|reflexivity].
  unfold Js.locate. change (Js.nullish _) with false at 1. cbv iota zeta.
  rewrite storesOf_typed.
  destruct (orElse _ []) as [|[store|] rest]; [reflexivity| |reflexivity].
  change (map jsonOfStore (Some store :: rest))
    with (jsonOfStore (Some store) :: map jsonOfStore rest).
  rewrite read_length, read_first.
  change (Z.of_nat (length (jsonOfStore (Some store)
                            :: map jsonOfStore rest)))
    with (Z.pos (Pos.of_succ_nat (length (map jsonOfStore rest)))).
  change (Js.nullish (Js.Json (jsonOfStore (Some store)))) with false.
  cbv iota. rewrite partDataOf_typed. unfold getProp.
  destruct (orElse _ _ !! partNumber) as [[pd|]|]; reflexivity.
Qed.

Lemma typed_parse_agrees (data : option Payload) :
  Js._parseResponse inherits partNumber (jsonOfPayload data) =
  match _parseResponse partNumber data with
  | Returned stockData => Returned (jsOfStockData stockData)
  | Threw e => Threw e
  end.
Proof using Hown Hpart.
  rewrite parse_located, locate_typed.
  destruct data as [d|]; [|reflexivity].
  unfold _parseResponse, _parseResponse_try.
  destruct (orElse _ []) as [|[store|] rest]; [reflexivity| |reflexivity].
  simpl length. simpl lookup. cbv iota zeta.
  change ((S (length rest) =? 0)%nat) with false. cbv iota.
  destruct (getProp _ partNumber) as [pd|]; [|reflexivity].
  unfold Js.malformedQuotes, Js.messageOf.
  rewrite !quote_typed by auto. simpl String.eqb. cbv iota.
  rewrite !or_text, storeName_typed. simpl.
  unfold jsOfStockData. simpl. now rewrite strOr_assoc.
Qed.
End TypedPayload.

Lemma objectPrototype_readsOwn : Js.readsOwn Js.objectPrototype.
Proof.
  intros k key Hin. unfold Js.fieldsRead in Hin.
  repeat (apply elem_of_cons in Hin as [-> | Hin]; [reflexivity|]).
  now apply elem_of_nil in Hin.
Qed.

Lemma threw_agrees {A B} (f : A -> B) (c : completion A) :
  threw (match c with
         | Returned a => Returned (f a)
         | Threw e => Threw e
         end) = threw c.
Proof. now destruct c. Qed.

Lemma threw_iff {A} (c : completion A) :
  threw c = true <-> exists message, c = Threw message.
Proof.
  destruct c as [a|e]; simpl.
  - split; [discriminate | now intros [message H]].
  - split; [intros _; now exists e | reflexivity].
Qed.

(** C7, as the code has it.  The parser throws, with a message that starts
    "Response parsing failed: ", exactly when the payload is [null], or the
    first entry of a store list that is not empty reads [undefined] or
    [null], or the part has an entry whose quotes are malformed: a
    [pickupSearchQuote] that is truthy and not a string, or an empty one
    with a [storePickupQuote] that cannot be written in the log line.  A
    store list that is missing, falsy or of length 0 gives the snapshot "No
    store data available", and a part table that reads nothing truthy under
    the part number gives the snapshot "Part not found in store data", both
    unavailable; a part number that names a member the part table inherits
    reads that member, and gives an unavailable snapshot "Unknown status".
    On a payload of the documented shape, and for a part number that is not
    the name of a member objects inherit, this comes to what the design
    document says: the parser throws exactly when the payload is [null] or
    the first store entry is [null]. *)
Theorem parse_fails_iff_absent_or_malformed
    (inherits : Js.kind -> string -> bool) (partNumber : string)
    (data : Js.json) :
  let r := Js._parseResponse inherits partNumber data in
  let located := Js.locate inherits partNumber data in
  (threw r = true <->
   data = Js.Null \/
   (exists store, located = Js.NoStore store) \/
   (exists store partData,
      located = Js.Part store partData /\
      Js.malformedQuotes inherits partData = true)) /\
  (forall store,
     located = Js.NoStore store ->
     store = Js.read inherits (Js.storesOf inherits data) "0" /\
     (store = Js.Undefined \/ store = Js.Json Js.Null)) /\
  (forall store partData,
     located = Js.Part store partData ->
     Js.isText (Js.quote inherits partData "pickupSearchQuote") = false ->
     r = Threw ("Response parsing failed: " +:+
                "pickupSearchQuote.toLowerCase is not a function")) /\
  (located = Js.NoStores ->
   r = Returned {| Js.StockData.available := false;
                   Js.StockData.message :=
                     Js.Json (Js.Text "No store data available");
                   Js.StockData.storeName := None;
                   Js.StockData.rawData := data |}) /\
  (forall store,
     located = Js.NoPart store ->
     r = Returned {| Js.StockData.available := false;
                     Js.StockData.message :=
                       Js.Json (Js.Text "Part not found in store data");
                     Js.StockData.storeName := None;
                     Js.StockData.rawData := data |}) /\
  (forall e,
     r = Threw e -> exists cause, e = "Response parsing failed: " +:+ cause) /\
  (forall typed : option Payload,
     Js.readsOwn inherits -> inherits Js.OfObject partNumber = false ->
     data = jsonOfPayload typed ->
     (threw r = true <-> containerAbsent typed \/ storeEntryAbsent typed)) /\
  (Js.readsOwn inherits ->
   forall store name,
     located = Js.Part store (Js.Inherited name) ->
     r = Returned {| Js.StockData.available := false;
                     Js.StockData.message :=
                       Js.Json (Js.Text "Unknown status");
                     Js.StockData.storeName :=
                       Some (Js.or (Js.read inherits store "storeName")
                                   (Js.Json (Js.Text "Unknown Store")));
                     Js.StockData.rawData := data |}).
Proof.
  intros r located. subst r located.
  assert (Hinherited :
    Js.readsOwn inherits ->
    forall store name,
      Js.locate inherits partNumber data = Js.Part store (Js.Inherited name)
      -> Js._parseResponse inherits partNumber data =
         Returned {| Js.StockData.available := false;
                     Js.StockData.message :=
                       Js.Json (Js.Text "Unknown status");
                     Js.StockData.storeName :=
                       Some (Js.or (Js.read inherits store "storeName")
                                   (Js.Json (Js.Text "Unknown Store")));
                     Js.StockData.rawData := data |}).
  { intros Hown store name Hl.
    exact (parse_inherited_part inherits partNumber data store name
             Hown Hl). }
  assert (Htyped : forall typed : option Payload,
            Js.readsOwn inherits -> inherits Js.OfObject partNumber = false ->
            data = jsonOfPayload typed ->
            (threw (Js._parseResponse inherits partNumber data) = true <->
             containerAbsent typed \/ storeEntryAbsent typed)).
  { intros typed Hown Hpart ->.
    rewrite (typed_parse_agrees inherits partNumber Hown Hpart typed).
    rewrite threw_agrees, threw_iff.
    apply typed_parse_fails_iff. }
  rewrite parse_located.
  pose proof (locate_no_payload inherits partNumber data) as Hnull.
  pose proof (locate_no_store inherits partNumber data) as Hstore.
  split; [|split; [|split; [|split; [|split; [|split; [|split]]]]]].
  - destruct (Js.locate inherits partNumber data)
      as [| |store|store|store partData] eqn:Hl.
    + split; [intros _; left; now apply Hnull | reflexivity].
    + split; [discriminate|].
      intros [H | [[store H] | (store & partData & H & _)]];
        [apply Hnull in H|..]; discriminate.
    + split; [intros _; right; left; now exists store | reflexivity].
    + split; [discriminate|].
      intros [H | [[store' H] | (store' & partData & H & _)]];
        [apply Hnull in H|..]; discriminate.
    + assert (Hbad : Js.isText (Js.quote inherits partData
                                  "pickupSearchQuote") = false ->
                     Js.malformedQuotes inherits partData = true).
      { intros H. unfold Js.malformedQuotes. now rewrite H. }
      destruct (Js.quote inherits partData "pickupSearchQuote")
        as [|[| | |pickupSearchQuote| |]|] eqn:Hq;
        try (split; [intros _; right; right; exists store, partData;
                     split; [reflexivity | now apply Hbad]
                    | reflexivity]).
      destruct (Js.malformedQuotes inherits partData) eqn:Hm.
      * split; [|reflexivity]. intros _. right. right.
        now exists store, partData.
      * split; [discriminate|].
        intros [H | [[store' H] | (store' & partData' & [= <- <-] & H)]];
          [apply Hnull in H; discriminate | discriminate | congruence].
  - exact Hstore.
  - intros store partData -> Hq.
    now destruct (Js.quote inherits partData "pickupSearchQuote")
      as [|[| | |pickupSearchQuote| |]|].
  - now intros ->.
  - now intros store ->.
  - destruct (Js.locate inherits partNumber data)
      as [| |store|store|store partData]; try discriminate;
      try (intros e [= <-]; now eexists).
    destruct (Js.quote inherits partData "pickupSearchQuote")
      as [|[| | |pickupSearchQuote| |]|];
      try (intros e [= <-]; now eexists).
    destruct (Js.malformedQuotes inherits partData); [|discriminate].
    intros e [= <-]. now eexists.
  - intros typed Hown Hpart Hdata. rewrite <- parse_located.
    now apply Htyped.
  - rewrite <- parse_located. exact Hinherited.
Qed.

Lemma parse_fails_iff_absent_or_malformed_witness :
  threw (Js._parseResponse Js.objectPrototype "MFYM4X/A" Js.Null) = true /\
  threw (Js._parseResponse Js.objectPrototype "MFYM4X/A"
           (jsonOfPayload
              (Some {| body := Some {| content := Some {| pickupMessage :=
                 Some {| stores := Some [None] |} |} |} |}))) = true /\
  Js._parseResponse Js.objectPrototype "MFYM4X/A" (Js.Object [])
  = Returned {| Js.StockData.available := false;
                Js.StockData.message :=
                  Js.Json (Js.Text "No store data available");
                Js.StockData.storeName := None;
                Js.StockData.rawData := Js.Object [] |} /\
  Js._parseResponse Js.objectPrototype "MFYM4X/A"
    (Js.payloadWith "MFYM4Y/A" (Js.Object []))
  = Returned {| Js.StockData.available := false;
                Js.StockData.message :=
                  Js.Json (Js.Text "Part not found in store data");
                Js.StockData.storeName := None;
                Js.StockData.rawData :=
                  Js.payloadWith "MFYM4Y/A" (Js.Object []) |}.
Proof.
  split; [|split; [|split]].
  - apply (proj1 (parse_fails_iff_absent_or_malformed
                    Js.objectPrototype "MFYM4X/A" Js.Null)).
    now left.
  - apply (proj1 (proj2 (proj2 (proj2 (proj2 (proj2 (proj2
             (parse_fails_iff_absent_or_malformed Js.objectPrototype
                "MFYM4X/A" _)))))))
             (Some {| body := Some {| content := Some {| pickupMessage :=
                Some {| stores := Some [None] |} |} |} |})
             objectPrototype_readsOwn eq_refl eq_refl).
    right. now exists [].
  - apply (parse_fails_iff_absent_or_malformed
             Js.objectPrototype "MFYM4X/A" (Js.Object [])).
    reflexivity.
  - apply (proj1 (proj2 (proj2 (proj2 (proj2
             (parse_fails_iff_absent_or_malformed Js.objectPrototype
                "MFYM4X/A" (Js.payloadWith "MFYM4Y/A" (Js.Object [])))))))
             (Js.Json (Js.Object
                [("storeName", Js.Text "Apple The Exchange TRX");
                 ("partsAvailability",
                  Js.Object [("MFYM4Y/A", Js.Object [])])]))).
    reflexivity.
Defined.

(** What the claim C7 says fails on the code: a payload whose container and
    store entry are there, with an entry for the part, makes the parser
    throw when the [pickupSearchQuote] of the entry is a number. *)
Lemma quote_not_text_fails_parse :
  let data :=
    Js.payloadWith "MFYM4X/A"
      (Js.Object [("pickupSearchQuote", Js.Number 123)]) in
  data <> Js.Null /\
  Js.locate Js.objectPrototype "MFYM4X/A" data =
  Js.Part
    (Js.Json (Js.Object
       [("storeName", Js.Text "Apple The Exchange TRX");
        ("partsAvailability",
         Js.Object [("MFYM4X/A",
                     Js.Object [("pickupSearchQuote", Js.Number 123)])])]))
    (Js.Json (Js.Object [("pickupSearchQuote", Js.Number 123)])) /\
  Js._parseResponse Js.objectPrototype "MFYM4X/A" data =
  Threw ("Response parsing failed: " +:+
         "pickupSearchQuote.toLowerCase is not a function").
Proof. split; [discriminate|]. split; reflexivity. Qed.

(** C8, as the code has it.  The message of a snapshot the parser returns
    is never [undefined], [null] or the empty string.  It is "No store data
    available" for a store list that is missing or empty, "Part not found
    in store data" when the part table reads nothing truthy under the part
    number, and otherwise the [pickupSearchQuote] of the entry when that is
    not empty, else its [storePickupQuote] when that is truthy, else
    "Unknown status"; this last also when the part number names an inherited
    member.  It is a string that is not empty whenever [storePickupQuote] is
    a string or is falsy; a truthy [storePickupQuote] that is not a string
    is the message as it is, when [pickupSearchQuote] is empty.  On a
    payload of the documented shape, and for a part number that is not the
    name of a member objects inherit, the message is a string that is not
    empty. *)
Theorem parse_message_never_empty
    (inherits : Js.kind -> string -> bool) (partNumber : string)
    (data : Js.json) (s : Js.StockData.t) :
  Js._parseResponse inherits partNumber data = Returned s ->
  let located := Js.locate inherits partNumber data in
  let message := Js.StockData.message s in
  Js.truthy message = true /\
  message <> Js.Undefined /\ message <> Js.Json Js.Null /\
  message <> Js.Json (Js.Text "") /\
  (located = Js.NoStores ->
   message = Js.Json (Js.Text "No store data available")) /\
  (forall store,
     located = Js.NoPart store ->
     message = Js.Json (Js.Text "Part not found in store data")) /\
  (forall store partData,
     located = Js.Part store partData ->
     let pickupSearchQuote := Js.read inherits partData "pickupSearchQuote" in
     let storePickupQuote := Js.read inherits partData "storePickupQuote" in
     message = Js.messageOf inherits partData /\
     (Js.truthy pickupSearchQuote = true -> message = pickupSearchQuote) /\
     (Js.truthy pickupSearchQuote = false ->
      Js.truthy storePickupQuote = true -> message = storePickupQuote) /\
     (Js.truthy pickupSearchQuote = false ->
      Js.truthy storePickupQuote = false ->
      message = Js.Json (Js.Text "Unknown status")) /\
     (Js.isText (Js.quote inherits partData "storePickupQuote") = true ->
      exists text, message = Js.Json (Js.Text text) /\ text <> "")) /\
  (Js.readsOwn inherits ->
   forall store name,
     located = Js.Part store (Js.Inherited name) ->
     message = Js.Json (Js.Text "Unknown status")) /\
  (forall typed : option Payload,
     Js.readsOwn inherits -> inherits Js.OfObject partNumber = false ->
     data = jsonOfPayload typed ->
     exists text, message = Js.Json (Js.Text text) /\ text <> "").
Proof.
  intros Hs located message. subst located message.
  assert (Hcases :
    (Js.locate inherits partNumber data = Js.NoStores /\
     Js.StockData.message s = Js.Json (Js.Text "No store data available")) \/
    (exists store,
       Js.locate inherits partNumber data = Js.NoPart store /\
       Js.StockData.message s
       = Js.Json (Js.Text "Part not found in store data")) \/
    (exists store partData pickupSearchQuote,
       Js.locate inherits partNumber data = Js.Part store partData /\
       Js.quote inherits partData "pickupSearchQuote"
       = Js.Json (Js.Text pickupSearchQuote) /\
       Js.StockData.message s = Js.messageOf inherits partData)).
  { rewrite parse_located in Hs.
    destruct (Js.locate inherits partNumber data)
      as [| |store|store|store partData]; try discriminate.
    - left. now injection Hs as <-.
    - right. left. exists store. now injection Hs as <-.
    - right. right.
      destruct (Js.quote inherits partData "pickupSearchQuote")
        as [|[| | |pickupSearchQuote| |]|] eqn:Hq; try discriminate.
      destruct (Js.malformedQuotes inherits partData); [discriminate|].
      exists store, partData, pickupSearchQuote. now injection Hs as <-. }
  assert (Hmessage : forall partData pickupSearchQuote,
            Js.quote inherits partData "pickupSearchQuote"
            = Js.Json (Js.Text pickupSearchQuote) ->
            let psq := Js.read inherits partData "pickupSearchQuote" in
            let spq := Js.read inherits partData "storePickupQuote" in
            Js.truthy (Js.messageOf inherits partData) = true /\
            (Js.truthy psq = true -> Js.messageOf inherits partData = psq) /\
            (Js.truthy psq = false -> Js.truthy spq = true ->
             Js.messageOf inherits partData = spq) /\
            (Js.truthy psq = false -> Js.truthy spq = false ->
             Js.messageOf inherits partData
             = Js.Json (Js.Text "Unknown status")) /\
            (Js.isText (Js.quote inherits partData "storePickupQuote") = true
             -> exists text,
                 Js.messageOf inherits partData = Js.Json (Js.Text text) /\
                 text <> "")).
  { intros partData pickupSearchQuote Hq. cbv zeta.
    unfold Js.messageOf, Js.quote in Hq |- *.
    revert Hq.
    generalize (Js.read inherits partData "pickupSearchQuote").
    generalize (Js.read inherits partData "storePickupQuote").
    intros q p Hq. unfold Js.or in Hq |- *.
    destruct (Js.truthy p) eqn:Hp.
    - subst p. repeat first [rewrite Hp | progress cbv iota].
      split; [reflexivity|]. split; [reflexivity|].
      split; [discriminate|]. split; [discriminate|].
      intros _. exists pickupSearchQuote. split; [reflexivity|].
      intros ->. discriminate.
    - destruct (Js.truthy q) eqn:Hsp;
        repeat first
          [ rewrite Hp | rewrite Hsp
          | progress change (Js.truthy (Js.Json (Js.Text ""))) with false
          | progress cbv iota ].
      + split; [reflexivity|]. split; [discriminate|].
        split; [reflexivity|]. split; [discriminate|].
        intros Ht. destruct q as [|[| | |text| |]|]; try discriminate.
        exists text. split; [reflexivity|]. intros ->. discriminate.
      + split; [reflexivity|]. split; [discriminate|].
        split; [discriminate|]. split; [reflexivity|].
        intros _. now eexists. }
  assert (Htruthy : Js.truthy (Js.StockData.message s) = true).
  { destruct Hcases as [[_ ->] | [(store & _ & ->)
      | (store & partData & pickupSearchQuote & _ & Hq & ->)]];
      try reflexivity.
    apply (Hmessage partData pickupSearchQuote Hq). }
  split; [assumption|].
  split; [intros H; now rewrite H in Htruthy|].
  split; [intros H; now rewrite H in Htruthy|].
  split; [intros H; now rewrite H in Htruthy|].
  split; [|split; [|split; [|split]]].
  - intros Hl.
    destruct Hcases as [[_ H] | [(store & H & _)
      | (store & partData & pickupSearchQuote & H & _)]];
      [assumption | congruence | congruence].
  - intros store Hl.
    destruct Hcases as [[H _] | [(store' & _ & H)
      | (store' & partData & pickupSearchQuote & H & _)]];
      [congruence | assumption | congruence].
  - intros store partData Hl.
    destruct Hcases as [[H _] | [(store' & H & _)
      | (store' & partData' & pickupSearchQuote & H & Hq & Hm)]];
      [congruence | congruence |].
    rewrite Hl in H. injection H as <- <-. cbv zeta. rewrite Hm.
    split; [reflexivity|]. apply (Hmessage partData pickupSearchQuote Hq).
  - intros Hown store name Hl.
    rewrite (parse_inherited_part inherits partNumber data store name
               Hown Hl) in Hs.
    now injection Hs as <-.
  - intros typed Hown Hpart ->.
    rewrite (typed_parse_agrees inherits partNumber Hown Hpart typed) in Hs.
    destruct (_parseResponse partNumber typed) as [stockData|e] eqn:Ht;
      [|discriminate].
    injection Hs as <-. exists (StockData.message stockData).
    split; [reflexivity|].
    apply (typed_message_nonempty partNumber typed stockData Ht).
Qed.

Lemma parse_message_never_empty_witness :
  let data :=
    Js.payloadWith "MFYM4X/A"
      (Js.Object [("pickupSearchQuote", Js.Text "");
                  ("storePickupQuote", Js.Null)]) in
  exists s,
    Js._parseResponse Js.objectPrototype "MFYM4X/A" data = Returned s /\
    Js.truthy (Js.StockData.message s) = true /\
    Js.StockData.message s = Js.Json (Js.Text "Unknown status").
Proof.
  intros data. eexists. split; [reflexivity|].
  destruct (parse_message_never_empty Js.objectPrototype "MFYM4X/A" data _
              eq_refl)
    as (Htruthy & _ & _ & _ & _ & _ & Hpart & _).
  split; [exact Htruthy|].
  destruct (Hpart _ _ eq_refl) as (_ & _ & _ & Hunknown & _).
  now apply Hunknown.
Defined.

(** What the claim C8 says fails on the code: the message of a snapshot
    need not be a string.  With no [pickupSearchQuote], a [storePickupQuote]
    that is a number is the message. *)
Lemma quote_not_text_is_message :
  let data :=
    Js.payloadWith "MFYM4X/A"
      (Js.Object [("storePickupQuote", Js.Number 123)]) in
  Js._parseResponse Js.objectPrototype "MFYM4X/A" data =
  Returned {| Js.StockData.available := false;
              Js.StockData.message := Js.Json (Js.Number 123);
              Js.StockData.storeName :=
                Some (Js.Json (Js.Text "Apple The Exchange TRX"));
              Js.StockData.rawData := data |} /\
  Js.isText (Js.Json (Js.Number 123)) = false.
Proof. split; reflexivity. Qed.

(** X14.  A snapshot the parser returns carries the payload it was given as
    [rawData].  It has a store name exactly when the part table reads
    something truthy under the part number, be it an entry of the part or a
    member the table inherits, and then the name is what the first store
    holds as [storeName], or "Unknown Store" when it holds nothing truthy
    there, so never [null] or empty.  An available snapshot always has a
    store name.  On a payload of the documented shape, and for a part
    number that is not the name of a member objects inherit, the snapshot
    has no store name exactly when the part has no entry. *)
Theorem parse_store_name
    (inherits : Js.kind -> string -> bool) (partNumber : string)
    (data : Js.json) (s : Js.StockData.t) :
  Js._parseResponse inherits partNumber data = Returned s ->
  let located := Js.locate inherits partNumber data in
  Js.StockData.rawData s = data /\
  (Js.StockData.storeName s = None <->
   located = Js.NoStores \/ exists store, located = Js.NoPart store) /\
  (forall store partData,
     located = Js.Part store partData ->
     Js.truthy (Js.partDataOf inherits partNumber store) = true /\
     Js.StockData.storeName s =
     Some (Js.or (Js.read inherits store "storeName")
                 (Js.Json (Js.Text "Unknown Store")))) /\
  (forall name, Js.StockData.storeName s = Some name ->
                Js.truthy name = true) /\
  (Js.StockData.available s = true -> Js.StockData.storeName s <> None) /\
  (Js.readsOwn inherits ->
   forall store name,
     located = Js.Part store (Js.Inherited name) ->
     Js.StockData.available s = false /\
     Js.StockData.storeName s <> None) /\
  (forall typed : option Payload,
     Js.readsOwn inherits -> inherits Js.OfObject partNumber = false ->
     data = jsonOfPayload typed ->
     (Js.StockData.storeName s = None <->
      partEntry partNumber typed = None)).
Proof.
  intros Hs located. subst located. pose proof Hs as Hs'.
  assert (Htyped : forall typed : option Payload,
            Js.readsOwn inherits -> inherits Js.OfObject partNumber = false ->
            data = jsonOfPayload typed ->
            (Js.StockData.storeName s = None <->
             partEntry partNumber typed = None)).
  { intros typed Hown Hpart ->.
    rewrite (typed_parse_agrees inherits partNumber Hown Hpart typed) in Hs.
    destruct (_parseResponse partNumber typed) as [stockData|e] eqn:Ht;
      [|discriminate].
    injection Hs as <-. simpl.
    rewrite <- (proj1 (proj2 (typed_store_name partNumber typed stockData
                                Ht))).
    now destruct (StockData.storeName stockData). }
  rewrite parse_located in Hs.
  destruct (Js.locate inherits partNumber data)
    as [| |store|store|store partData] eqn:Hl; try discriminate.
  - injection Hs as <-. simpl.
    split; [reflexivity|]. split; [split; [now left | reflexivity]|].
    split; [discriminate|]. split; [discriminate|].
    split; [discriminate|]. split; [discriminate | assumption].
  - injection Hs as <-. simpl.
    split; [reflexivity|].
    split; [split; [right; now exists store | reflexivity]|].
    split; [discriminate|]. split; [discriminate|].
    split; [discriminate|]. split; [discriminate | assumption].
  - destruct (locate_part inherits partNumber data store partData Hl)
      as (_ & Hpd & _ & Hp).
    destruct (Js.quote inherits partData "pickupSearchQuote")
      as [|[| | |pickupSearchQuote| |]|]; try discriminate.
    destruct (Js.malformedQuotes inherits partData); [discriminate|].
    injection Hs as <-. simpl.
    split; [reflexivity|].
    split; [split; [discriminate | intros [H | [store' H]]; discriminate]|].
    split; [intros store' partData' [= <- <-]; split;
            [now rewrite <- Hpd | reflexivity]|].
    split; [intros name [= <-]; now apply or_truthy|].
    split; [discriminate|]. split; [|assumption].
    intros Hown store' name [= <- ->].
    rewrite (parse_inherited_part inherits partNumber data store name
               Hown Hl) in Hs'.
    injection Hs' as Ha _. split; [simpl; congruence | discriminate].
Qed.

Lemma parse_store_name_witness :
  let data := Js.payloadWith "MFYM4X/A" (Js.Object []) in
  exists s,
    Js._parseResponse Js.objectPrototype "constructor" data = Returned s /\
    Js.StockData.rawData s = data /\
    Js.StockData.available s = false /\
    Js.StockData.storeName s <> None.
Proof.
  intros data. eexists. split; [reflexivity|].
  destruct (parse_store_name Js.objectPrototype "constructor" data _
              eq_refl)
    as (Hraw & _ & _ & _ & _ & Hinherited & _).
  split; [exact Hraw|].
  apply (Hinherited objectPrototype_readsOwn
           (Js.Json (Js.Object
              [("storeName", Js.Text "Apple The Exchange TRX");
               ("partsAvailability",
                Js.Object [("MFYM4X/A", Js.Object [])])]))
           "constructor").
  reflexivity.
Defined.

(** ** Running computations *)

Ltac run :=
  unfold mbind, M_bind, mret, M_ret, tryCatchM, throw, liftC, emit, gets,
    modify, result, final, events in *; simpl in *.

Section FetchFacts.
Variable w : World.
Variable partNumber : string.

Lemma try_again_irrelevant (retryCount : nat) (a1 a2 : M StockData.t)
    (m : Machine) :
  (retryCount <? maxRetries)%nat = false ->
  checkAvailability_try w partNumber retryCount a1 m =
  checkAvailability_try w partNumber retryCount a2 m.
Proof.
  intros H. unfold checkAvailability_try, nextAttempt. run.
  destruct (attempts w (fetches m)) as [e| |statusCode json];
    try reflexivity.
  rewrite H, andb_false_r. reflexivity.
Qed.

Lemma catch_again_irrelevant (retryCount : nat) (a1 a2 : M StockData.t)
    (error : string) :
  (retryCount <? maxRetries)%nat = false ->
  checkAvailability_catch retryCount a1 error =
  checkAvailability_catch retryCount a2 error.
Proof.
  intros H. unfold checkAvailability_catch.
  rewrite H, andb_false_r. reflexivity.
Qed.

(** The recursive equation of the source. *)
Lemma checkAvailability_unfold (retryCount : nat) (m : Machine) :
  checkAvailability w partNumber retryCount m =
  checkAvailability_body w partNumber retryCount
    (checkAvailability w partNumber (S retryCount)) m.
Proof.
  unfold checkAvailability.
  destruct (retryCount <? maxRetries)%nat eqn:E.
  - apply Nat.ltb_lt in E.
    replace (maxRetries - retryCount)%nat
      with (S (maxRetries - S retryCount)) by lia.
    reflexivity.
  - pose proof E as E'. apply Nat.ltb_ge in E'.
    replace (maxRetries - retryCount)%nat with 0%nat by lia.
    simpl. unfold checkAvailability_body, tryCatchM.
    rewrite (try_again_irrelevant _ _
               (checkAvailability_depth w partNumber
                  (maxRetries - S retryCount) (S retryCount)) _ E).
    destruct (checkAvailability_try _ _ _ _ _) as [[[s|e] m1] evs1];
      [reflexivity|].
    now rewrite (catch_again_irrelevant _ _
               (checkAvailability_depth w partNumber
                  (maxRetries - S retryCount) (S retryCount)) _ E).
Qed.
End FetchFacts.

Lemma notifications_app (evs1 evs2 : list event) :
  notifications (evs1 ++ evs2) = notifications evs1 ++ notifications evs2.
Proof. apply omap_app. Qed.

Lemma fetchOnly_weaken {A} (k k' : nat) (c : M A) :
  (k' <= k)%nat -> fetchOnly k c -> fetchOnly k' c.
Proof.
  intros Hk H m. destruct (H m) as [(n & Hn & Hle) Hno].
  split; [|assumption]. exists n. split; [assumption | lia].
Qed.

Lemma fetchOnly_pure {A} (c : completion A) : fetchOnly 0 (liftC c).
Proof.
  intros m. split; [|reflexivity]. exists (fetches m).
  split; [now destruct m | simpl; lia].
Qed.

Lemma fetchOnly_throw {A} (e : string) : fetchOnly 0 (throw (A:=A) e).
Proof. apply (fetchOnly_pure (Threw e)). Qed.

Lemma fetchOnly_bind {A B} (k : nat) (c : M A) (f : A -> M B) :
  fetchOnly k c -> (forall a, fetchOnly 0 (f a)) ->
  fetchOnly k (c ≫= f).
Proof.
  intros Hc Hf m. destruct (Hc m) as [(n1 & Hn1 & Hle1) Hno1].
  unfold mbind, M_bind, final, events in *.
  destruct (c m) as [[[a|e] m1] evs1]; simpl in *.
  - destruct (Hf a m1) as [(n2 & Hn2 & Hle2) Hno2].
    unfold final, events in *.
    destruct (f a m1) as [[r m2] evs2]; simpl in *. subst m1 m2. split.
    + exists n2. split; [reflexivity | simpl in Hle2; lia].
    + now rewrite notifications_app, Hno1, Hno2.
  - split; [|assumption]. exists n1. split; [assumption | lia].
Qed.

Lemma fetchOnly_tryCatch {A} (k : nat) (c : M A) (h : string -> M A) :
  fetchOnly k c -> (forall e, fetchOnly 0 (h e)) ->
  fetchOnly k (tryCatchM c h).
Proof.
  intros Hc Hh m. destruct (Hc m) as [(n1 & Hn1 & Hle1) Hno1].
  unfold tryCatchM, final, events in *.
  destruct (c m) as [[[a|e] m1] evs1]; simpl in *.
  - split; [|assumption]. exists n1. now split.
  - destruct (Hh e m1) as [(n2 & Hn2 & Hle2) Hno2].
    unfold final, events in *.
    destruct (h e m1) as [[r m2] evs2]; simpl in *. subst m1 m2. split.
    + exists n2. split; [reflexivity | simpl in Hle2; lia].
    + now rewrite notifications_app, Hno1, Hno2.
Qed.

Section FetchFrame.
Variable w : World.
Variable partNumber : string.

Lemma fetchOnly_nextAttempt : fetchOnly 1 (nextAttempt w).
Proof.
  intros m. split; [|reflexivity]. exists (S (fetches m)).
  split; [reflexivity | lia].
Qed.

Lemma fetchOnly_retry (ms : Z) (again : M StockData.t) :
  fetchOnly 0 again ->
  fetchOnly 0 (_closeBrowser;; sleep ms;; again).
Proof.
  intros H. apply (fetchOnly_bind 0); [|intros _].
  - intros m. split; [|reflexivity]. exists (fetches m).
    split; [now destruct m | simpl; lia].
  - apply (fetchOnly_bind 0); [|intros _; assumption].
    intros m. split; [|reflexivity]. exists (fetches m).
    split; [now destruct m | simpl; lia].
Qed.

Lemma fetchOnly_catch (retryCount : nat) (again : M StockData.t)
    (error : string) :
  fetchOnly 0 again ->
  fetchOnly 0 (checkAvailability_catch retryCount again error).
Proof.
  intros Hagain. unfold checkAvailability_catch.
  destruct (_ && _); [now apply fetchOnly_retry|].
  destruct (includes error "status"); [apply fetchOnly_throw|].
  destruct (includes error "timeout"); apply fetchOnly_throw.
Qed.

Lemma fetchOnly_body (retryCount : nat) (again : M StockData.t) :
  fetchOnly 0 again ->
  fetchOnly 1 (checkAvailability_body w partNumber retryCount again).
Proof.
  intros Hagain. apply fetchOnly_tryCatch.
  - apply (fetchOnly_bind 1); [apply fetchOnly_nextAttempt|].
    intros [e| |statusCode json].
    + apply fetchOnly_throw.
    + apply fetchOnly_throw.
    + destruct (negb _).
      * destruct (_ && _);
          [now apply fetchOnly_retry | apply fetchOnly_throw].
      * apply (fetchOnly_bind 0); [apply fetchOnly_pure|].
        intros data. apply fetchOnly_pure.
  - intros e. now apply fetchOnly_catch.
Qed.

Lemma fetchOnly_depth (depth retryCount : nat) :
  fetchOnly 1 (checkAvailability_depth w partNumber depth retryCount).
Proof.
  revert retryCount. induction depth as [|depth IH]; intros retryCount;
    apply fetchOnly_body.
  - apply fetchOnly_throw.
  - apply (fetchOnly_weaken 1); [lia | apply IH].
Qed.

Lemma fetchOnly_checkAvailability (retryCount : nat) :
  fetchOnly 1 (checkAvailability w partNumber retryCount).
Proof. apply fetchOnly_depth. Qed.
End FetchFrame.

Lemma append_assoc (s t u : string) : (s +:+ t) +:+ u = s +:+ t +:+ u.
Proof.
  induction s as [|c s IH]; [reflexivity|].
  change (String c ((s +:+ t) +:+ u) = String c (s +:+ t +:+ u)).
  now rewrite IH.
Qed.

Lemma includes_app_l (s x t : string) :
  includes s t = true -> includes (s +:+ x) t = true.
Proof.
  rewrite !includes_spec. intros (pre & post & ->).
  exists pre, (post +:+ x).
  now rewrite !append_assoc.
Qed.

Lemma statusMessage_status (statusCode : Z) :
  includes (statusMessage statusCode) "status" = true.
Proof. apply includes_app_l. reflexivity. Qed.

Section RetryFrames.
Variable w : World.
Variable partNumber : string.

Local Abbreviation check := (checkAvailability w partNumber) (only parsing).
Local Abbreviation attempted m :=
  (set_fetches (S (fetches m)) m) (only parsing).

Lemma catch_retry (retryCount : nat) (again : M StockData.t)
    (error : string) (m : Machine) :
  includes error "status" = false ->
  (retryCount < maxRetries)%nat ->
  checkAvailability_catch retryCount again error m =
  let '(r, m2, evs) := again m in
  (r, m2,
   CloseBrowser :: Sleep ((Z.of_nat retryCount + 1) * 5000) :: evs).
Proof.
  intros He Hk. apply Nat.ltb_lt in Hk.
  unfold checkAvailability_catch. rewrite He, Hk. run.
  now destruct (again m) as [[r m2] evs].
Qed.

Lemma catch_status (retryCount : nat) (again : M StockData.t)
    (error : string) (m : Machine) :
  includes error "status" = true ->
  checkAvailability_catch retryCount again error m = (Threw error, m, []).
Proof.
  intros He. unfold checkAvailability_catch. now rewrite He.
Qed.

Lemma catch_exhausted (retryCount : nat) (again : M StockData.t)
    (error : string) (m : Machine) :
  includes error "status" = false ->
  (maxRetries <= retryCount)%nat ->
  checkAvailability_catch retryCount again error m =
  (Threw (if includes error "timeout"
          then "Request timeout - Apple API did not respond in time"
          else "Request failed: " +:+ error), m, []).
Proof.
  intros He Hk. apply Nat.ltb_ge in Hk.
  unfold checkAvailability_catch. rewrite He, Hk. simpl.
  now destruct (includes error "timeout").
Qed.

(** The [try] block, by what the attempt meets. *)
Lemma try_thrown (retryCount : nat) (again : M StockData.t) (m : Machine)
    (error : string) :
  thrownBy (attempts w (fetches m)) = Some error ->
  checkAvailability_try w partNumber retryCount again m =
  (Threw error, attempted m, []).
Proof.
  intros H. unfold checkAvailability_try, nextAttempt. run.
  destruct (attempts w (fetches m)) as [e| |statusCode json];
    simpl in H; try discriminate; now injection H as <-.
Qed.

Lemma try_status_terminal (retryCount : nat) (again : M StockData.t)
    (m : Machine) (statusCode : Z) (json : completion (option Payload)) :
  attempts w (fetches m) = Response statusCode json ->
  (statusCode =? 200)%Z = false ->
  (statusCode =? 541)%Z && (retryCount <? maxRetries)%nat = false ->
  checkAvailability_try w partNumber retryCount again m =
  (Threw (statusMessage statusCode), attempted m, []).
Proof.
  intros H H200 H541. unfold checkAvailability_try, nextAttempt. run.
  rewrite H, H200. simpl. now rewrite H541.
Qed.

Lemma try_541_retry (retryCount : nat) (again : M StockData.t)
    (m : Machine) (json : completion (option Payload)) :
  attempts w (fetches m) = Response 541 json ->
  (retryCount < maxRetries)%nat ->
  checkAvailability_try w partNumber retryCount again m =
  let '(r, m2, evs) := again (attempted m) in
  (r, m2,
   CloseBrowser :: Sleep ((Z.of_nat retryCount + 1) * 10000) :: evs).
Proof.
  intros H Hk. apply Nat.ltb_lt in Hk.
  unfold checkAvailability_try, nextAttempt, _closeBrowser, sleep. run.
  rewrite H. simpl. rewrite Hk. simpl.
  now destruct (again (attempted m)) as [[[a|e] m2] evs].
Qed.

Lemma try_200 (retryCount : nat) (again : M StockData.t)
    (m : Machine) (json : completion (option Payload)) :
  attempts w (fetches m) = Response 200 json ->
  checkAvailability_try w partNumber retryCount again m =
  (match json with
   | Returned data => _parseResponse partNumber data
   | Threw e => Threw e
   end, attempted m, []).
Proof.
  intros H. unfold checkAvailability_try, nextAttempt. run.
  rewrite H. simpl. now destruct json as [data|e].
Qed.

Lemma tryCatchM_eq {A} (c : M A) (h : string -> M A) (m : Machine) :
  tryCatchM c h m =
  match c m with
  | (Returned a, m1, evs1) => (Returned a, m1, evs1)
  | (Threw e, m1, evs1) =>
    let '(r, m2, evs2) := h e m1 in (r, m2, evs1 ++ evs2)
  end.
Proof.
  unfold tryCatchM. destruct (c m) as [[[a|e] m1] evs1]; [reflexivity|].
  now destruct (h e m1) as [[r m2] evs2].
Qed.

Lemma check_eq (retryCount : nat) (m : Machine) :
  check retryCount m =
  match checkAvailability_try w partNumber retryCount
          (check (S retryCount)) m with
  | (Returned a, m1, evs1) => (Returned a, m1, evs1)
  | (Threw e, m1, evs1) =>
    let '(r, m2, evs2) :=
      checkAvailability_catch retryCount (check (S retryCount)) e m1 in
    (r, m2, evs1 ++ evs2)
  end.
Proof.
  rewrite checkAvailability_unfold. apply tryCatchM_eq.
Qed.

(** A call whose attempt throws goes to its [catch] clause. *)
Lemma frame_thrown (retryCount : nat) (m : Machine) (error : string) :
  thrownBy (attempts w (fetches m)) = Some error ->
  check retryCount m =
  checkAvailability_catch retryCount (check (S retryCount)) error
                          (attempted m).
Proof.
  intros H. rewrite check_eq, (try_thrown _ _ _ _ H).
  now destruct (checkAvailability_catch _ _ _ _) as [[r m2] evs].
Qed.

(** A call answered with a status other than 200 that does not retry. *)
Lemma frame_status_terminal (retryCount : nat) (m : Machine)
    (statusCode : Z) (json : completion (option Payload)) :
  attempts w (fetches m) = Response statusCode json ->
  (statusCode =? 200)%Z = false ->
  (statusCode =? 541)%Z && (retryCount <? maxRetries)%nat = false ->
  check retryCount m = (Threw (statusMessage statusCode), attempted m, []).
Proof.
  intros H H200 H541.
  rewrite check_eq, (try_status_terminal _ _ _ _ _ H H200 H541).
  now rewrite catch_status by apply statusMessage_status.
Qed.

(** A call answered with 541 that retries: what the call it makes throws
    comes back through its own [catch] clause. *)
Lemma frame_541_retry (retryCount : nat) (m : Machine)
    (json : completion (option Payload)) :
  attempts w (fetches m) = Response 541 json ->
  (retryCount < maxRetries)%nat ->
  check retryCount m =
  let '(r, m2, evs) := check (S retryCount) (attempted m) in
  let waited :=
    CloseBrowser :: Sleep ((Z.of_nat retryCount + 1) * 10000) :: evs in
  match r with
  | Returned a => (Returned a, m2, waited)
  | Threw e =>
    let '(r', m3, evs') :=
      checkAvailability_catch retryCount (check (S retryCount)) e m2 in
    (r', m3, waited ++ evs')
  end.
Proof.
  intros H Hk. rewrite check_eq, (try_541_retry _ _ _ _ H Hk).
  now destruct (check (S retryCount) (attempted m)) as [[[a|e] m2] evs].
Qed.
End RetryFrames.

Section RetryPolicy.
Variable w : World.
Variable partNumber : string.

Local Abbreviation check := (checkAvailability w partNumber) (only parsing).
Local Abbreviation attempted m :=
  (set_fetches (S (fetches m)) m) (only parsing).

Lemma check_fetches (retryCount : nat) (m : Machine) :
  (fetches m + 1 <= fetches (final (check retryCount m)))%nat.
Proof.
  destruct (fetchOnly_checkAvailability w partNumber retryCount m)
    as [(n & -> & Hle) _]. exact Hle.
Qed.

Lemma frame_catch (retryCount : nat) (m : Machine) (error : string) :
  frame retryCount m
    (checkAvailability_catch retryCount (check (S retryCount)) error
                             (attempted m)).
Proof.
  destruct (includes error "status") eqn:He.
  - rewrite catch_status by assumption. constructor.
  - destruct (Nat.lt_ge_cases retryCount maxRetries) as [Hk|Hk].
    + rewrite catch_retry by assumption.
      pose proof (check_fetches (S retryCount) (attempted m)) as Hle.
      destruct (check (S retryCount) (attempted m)) as [[r m2] evs].
      constructor; [assumption|]. simpl in Hle. unfold final in Hle.
      simpl in Hle. lia.
    + rewrite catch_exhausted by assumption. constructor.
Qed.

Lemma frame_caught (retryCount : nat) (m : Machine) (error : string) :
  frame retryCount m
    (let '(r, m2, evs2) :=
       checkAvailability_catch retryCount (check (S retryCount)) error
                               (attempted m) in
     (r, m2, [] ++ evs2)).
Proof.
  pose proof (frame_catch retryCount m error) as Hf.
  now destruct (checkAvailability_catch _ _ _ _) as [[r m2] evs].
Qed.

Lemma check_frame (retryCount : nat) (m : Machine) :
  (exists a, attempts w (fetches m) = Response 200 a /\
             exists s, check retryCount m = (Returned s, attempted m, [])) \/
  frame retryCount m (check retryCount m).
Proof.
  destruct (attempts w (fetches m)) as [e| |statusCode json] eqn:Ho.
  - right. rewrite (frame_thrown _ _ _ _ e) by now rewrite Ho.
    apply frame_catch.
  - right. rewrite (frame_thrown _ _ _ _ "No API response captured")
      by now rewrite Ho.
    apply frame_catch.
  - destruct (statusCode =? 200)%Z eqn:H200.
    + apply Z.eqb_eq in H200 as ->.
      rewrite check_eq, (try_200 _ _ _ _ _ _ Ho).
      destruct json as [data|e].
      * destruct (_parseResponse partNumber data) as [a|e].
        -- left. exists (Returned data). split; [reflexivity|].
           now exists a.
        -- right. apply frame_caught.
      * right. apply frame_caught.
    + right.
      destruct ((statusCode =? 541)%Z && (retryCount <? maxRetries)%nat)
        eqn:H541.
      * apply andb_true_iff in H541 as [Hc Hk].
        apply Z.eqb_eq in Hc as ->. apply Nat.ltb_lt in Hk.
        rewrite (frame_541_retry _ _ _ _ _ Ho Hk).
        pose proof (check_fetches (S retryCount) (attempted m)) as Hle.
        destruct (check (S retryCount) (attempted m))
          as [[[a|e] m2] evs]; unfold final in Hle; simpl in Hle.
        -- constructor; [assumption | lia].
        -- destruct (fetchOnly_catch retryCount (check (S retryCount)) e
                       (fetchOnly_weaken 1 0 _ (Nat.le_0_l _)
                          (fetchOnly_checkAvailability w partNumber
                             (S retryCount))) m2)
             as [(n & Hn & Hle') _].
           destruct (checkAvailability_catch _ _ _ _) as [[r m3] evs'].
           unfold final in Hn; simpl in Hn. subst m3.
           constructor; [assumption | simpl in *; lia].
      * rewrite (frame_status_terminal _ _ _ _ _ _ Ho H200 H541).
        constructor.
Qed.
End RetryPolicy.

Section RetryTheorems.
Variable w : World.
Variable partNumber : string.

Local Abbreviation check := (checkAvailability w partNumber) (only parsing).
Local Abbreviation attempted m :=
  (set_fetches (S (fetches m)) m) (only parsing).

Lemma decision_thrown (retryCount : nat) (m : Machine) (error : string) :
  thrownBy (attempts w (fetches m)) = Some error ->
  includes error "status" = false ->
  decisionTaken retryCount (events (check retryCount m)) =
  specRetryPolicy Transport retryCount.
Proof.
  intros Ho He. rewrite (frame_thrown _ _ _ _ _ Ho). simpl.
  destruct (Nat.lt_ge_cases retryCount maxRetries) as [Hk|Hk].
  - rewrite catch_retry by assumption.
    destruct (checkAvailability _ _ _) as [[r m2] evs]. simpl.
    apply Nat.ltb_lt in Hk. unfold maxRetries in Hk. now rewrite Hk.
  - rewrite catch_exhausted by assumption. simpl.
    apply Nat.ltb_ge in Hk. unfold maxRetries in Hk. now rewrite Hk.
Qed.

Lemma decision_status (retryCount : nat) (m : Machine)
    (statusCode : Z) (json : completion (option Payload)) :
  attempts w (fetches m) = Response statusCode json ->
  (statusCode =? 200)%Z = false ->
  decisionTaken retryCount (events (check retryCount m)) =
  if (statusCode =? 541)%Z
  then specRetryPolicy AntiAutomation retryCount
  else specRetryPolicy OtherStatus retryCount.
Proof.
  intros Ho H200.
  destruct ((statusCode =? 541)%Z && (retryCount <? maxRetries)%nat)
    eqn:H541.
  - apply andb_true_iff in H541 as [Hc Hk]. rewrite Hc.
    apply Z.eqb_eq in Hc as ->. pose proof Hk as Hk'.
    apply Nat.ltb_lt in Hk'.
    rewrite (frame_541_retry _ _ _ _ _ Ho Hk'). simpl.
    unfold maxRetries in Hk. rewrite Hk.
    destruct (checkAvailability _ _ _) as [[[a|e] m2] evs];
      [reflexivity|].
    now destruct (checkAvailability_catch _ _ _ _) as [[r m3] evs'].
  - rewrite (frame_status_terminal _ _ _ _ _ _ Ho H200 H541). simpl.
    destruct (statusCode =? 541)%Z; [|reflexivity].
    simpl in H541. unfold maxRetries in H541. now rewrite H541.
Qed.

Lemma step_541 (retryCount : nat) (m m2 : Machine) (evs : list event) :
  (exists json, attempts w (fetches m) = Response 541 json) ->
  (retryCount < maxRetries)%nat ->
  check (S retryCount) (attempted m) = (Threw (statusMessage 541), m2, evs) ->
  check retryCount m =
  (Threw (statusMessage 541), m2,
   CloseBrowser :: Sleep ((Z.of_nat retryCount + 1) * 10000) :: evs).
Proof.
  intros [json Ho] Hk Hnext.
  rewrite (frame_541_retry _ _ _ _ _ Ho Hk), Hnext.
  rewrite catch_status by apply statusMessage_status.
  simpl. now rewrite app_nil_r.
Qed.

Lemma exhausted_541 (m : Machine) :
  (forall n, exists json, attempts w n = Response 541 json) ->
  check 0 m =
  (Threw (statusMessage 541),
   attempted (attempted (attempted (attempted m))),
   [CloseBrowser; Sleep 10000; CloseBrowser; Sleep 20000;
    CloseBrowser; Sleep 30000]).
Proof.
  intros H. unfold maxRetries.
  apply step_541; [apply H | unfold maxRetries; lia |].
  apply step_541; [apply H | unfold maxRetries; lia |].
  apply step_541; [apply H | unfold maxRetries; lia |].
  destruct (H (fetches (attempted (attempted (attempted m)))))
    as [json Ho].
  now apply (frame_status_terminal _ _ _ _ _ _ Ho).
Qed.

Lemma step_thrown (retryCount : nat) (m m2 : Machine)
    (r : completion StockData.t) (evs : list event) :
  (exists e, thrownBy (attempts w (fetches m)) = Some e /\
             includes e "status" = false) ->
  (retryCount < maxRetries)%nat ->
  check (S retryCount) (attempted m) = (r, m2, evs) ->
  check retryCount m =
  (r, m2, CloseBrowser :: Sleep ((Z.of_nat retryCount + 1) * 5000) :: evs).
Proof.
  intros (e & Ho & He) Hk Hnext.
  rewrite (frame_thrown _ _ _ _ _ Ho), catch_retry by assumption.
  now rewrite Hnext.
Qed.

(** The message that surfaces when the last attempt threw [e]. *)
Lemma exhausted_thrown (m : Machine) :
  (forall n, exists e, thrownBy (attempts w n) = Some e /\
                       includes e "status" = false) ->
  exists e,
    thrownBy (attempts w (S (S (S (fetches m))))) = Some e /\
    check 0 m =
    (Threw (if includes e "timeout"
            then "Request timeout - Apple API did not respond in time"
            else "Request failed: " +:+ e),
     attempted (attempted (attempted (attempted m))),
     [CloseBrowser; Sleep 5000; CloseBrowser; Sleep 10000;
      CloseBrowser; Sleep 15000]).
Proof.
  intros H.
  destruct (H (fetches (attempted (attempted (attempted m)))))
    as (e & Ho & He).
  exists e. split; [exact Ho|].
  apply step_thrown; [apply H | unfold maxRetries; lia |].
  apply step_thrown; [apply H | unfold maxRetries; lia |].
  apply step_thrown; [apply H | unfold maxRetries; lia |].
  rewrite (frame_thrown _ _ _ _ _ Ho).
  now apply catch_exhausted.
Qed.
End RetryTheorems.

(** C4, as the code has it.  The decision a call [checkAvailability(k)]
    takes is that of the table for the class of what its attempt met, for
    the anti-automation status 541 (retry after [(k+1) * 10 s] while
    [k < 3]), for any other status but 200 (never retried) and for a
    transport failure, that is a thrown error whose message does not contain
    "status" (retry after [(k+1) * 5 s] while [k < 3]); a timeout is such a
    transport failure and is retried like one.  A call that gives up throws
    after its single attempt, a call that retries makes a further attempt,
    and when every attempt is rejected with 541, or every attempt throws
    such an error, the first call throws after three retries.  What it
    throws then is the 541 error or, for transport failures, an error made
    from the message [e] of the last attempt: "Request timeout - Apple API
    did not respond in time" when [e] contains "timeout" in lower case, and
    "Request failed: " followed by [e] otherwise. *)
Theorem checkAvailability_retry_policy
    (w : World) (partNumber : string) (k : nat) (m : Machine) :
  let o := attempts w (fetches m) in
  let r := checkAvailability w partNumber k m in
  (forall class,
     classify o = Some class ->
     (forall e, thrownBy o = Some e -> includes e "status" = false) ->
     decisionTaken k (events r) = codeRetryPolicy class k) /\
  (shouldRetry (decisionTaken k (events r)) = false ->
   forall class, classify o = Some class ->
     threw (result r) = true /\
     final r = set_fetches (S (fetches m)) m /\ events r = []) /\
  (shouldRetry (decisionTaken k (events r)) = true ->
   (k < 3)%nat /\ (fetches m + 2 <= fetches (final r))%nat) /\
  ((forall n, exists json, attempts w n = Response 541 json) ->
   let r0 := checkAvailability w partNumber 0 m in
   result r0 = Threw (statusMessage 541) /\
   sleeps (events r0) = [10000; 20000; 30000]%Z /\
   fetches (final r0) = (fetches m + 4)%nat) /\
  ((forall n, exists e, thrownBy (attempts w n) = Some e /\
                        includes e "status" = false) ->
   let r0 := checkAvailability w partNumber 0 m in
   (exists e,
      thrownBy (attempts w (fetches m + 3)) = Some e /\
      result r0 =
      Threw (if includes e "timeout"
             then "Request timeout - Apple API did not respond in time"
             else "Request failed: " +:+ e)) /\
   threw (result r0) = true /\
   sleeps (events r0) = [5000; 10000; 15000]%Z /\
   fetches (final r0) = (fetches m + 4)%nat).
Proof.
  intros o r. split; [|split; [|split; [|split]]].
  - intros class Hc He. subst o r.
    destruct (attempts w (fetches m)) as [e| |statusCode json] eqn:Ho.
    + rewrite (decision_thrown _ _ _ _ e)
        by (try rewrite Ho; auto using eq_refl).
      simpl in Hc. now destruct (includes e "timeout"); injection Hc as <-.
    + rewrite (decision_thrown _ _ _ _ "No API response captured")
        by (try rewrite Ho; reflexivity).
      now injection Hc as <-.
    + simpl in Hc. destruct (statusCode =? 200)%Z eqn:H200; [discriminate|].
      rewrite (decision_status _ _ _ _ _ _ Ho H200).
      now destruct (statusCode =? 541)%Z; injection Hc as <-.
  - intros Hd class Hc.
    destruct (check_frame w partNumber k m)
      as [(json & Ho & _) | Hf].
    + subst o. rewrite Ho in Hc. discriminate.
    + change (frame k m r) in Hf. clearbody r.
      destruct Hf; [now repeat split | discriminate].
  - intros Hd.
    destruct (check_frame w partNumber k m)
      as [(json & _ & s & Heq) | Hf].
    + subst r. rewrite Heq in Hd. discriminate.
    + change (frame k m r) in Hf. clearbody r.
      destruct Hf; [discriminate | now split].
  - intros H r0. subst r0. rewrite (exhausted_541 _ _ _ H).
    repeat split. simpl. lia.
  - intros H r0. subst r0.
    destruct (exhausted_thrown _ partNumber m H) as (e & Ho & ->).
    replace (fetches m + 3)%nat with (S (S (S (fetches m)))) by lia.
    split; [now exists e|]. repeat split. simpl. lia.
Qed.

Lemma checkAvailability_retry_policy_witness :
  let w := always (Response 541 (Returned None)) in
  let r := checkAvailability w "MFYM4X/A" 0 newMachine in
  let failing := always (PageError "page.goto: Timeout 45000ms exceeded.") in
  decisionTaken 0 (events r) = retryAfter 10000 0 /\
  result r = Threw (statusMessage 541) /\
  sleeps (events r) = [10000; 20000; 30000]%Z /\
  fetches (final r) = 4%nat /\
  result (checkAvailability failing "MFYM4X/A" 0 newMachine)
  = Threw "Request failed: page.goto: Timeout 45000ms exceeded.".
Proof.
  destruct (checkAvailability_retry_policy
              (always (Response 541 (Returned None))) "MFYM4X/A" 0 newMachine)
    as (Hpolicy & _ & _ & H541 & _).
  destruct (checkAvailability_retry_policy
              (always (PageError "page.goto: Timeout 45000ms exceeded."))
              "MFYM4X/A" 0 newMachine)
    as (_ & _ & _ & _ & Hthrown).
  split; [|split; [|split; [|split]]].
  - apply (Hpolicy AntiAutomation); [reflexivity | discriminate].
  - apply H541. intros n. now exists (Returned None).
  - apply H541. intros n. now exists (Returned None).
  - apply H541. intros n. now exists (Returned None).
  - destruct Hthrown as [(e & Ho & Hr) _].
    + intros n. now eexists.
    + injection Ho as <-. exact Hr.
Defined.

(** What the claim C4 says of timeouts fails on the code: a first attempt
    that times out is not surfaced at once, it is retried after 5 s, and the
    timeout surfaces only after three retries. *)
Lemma timeout_is_retried :
  let w := always (PageError "Navigation timeout of 45000 ms exceeded") in
  let r := checkAvailability w "MFYM4X/A" 0 newMachine in
  classify (attempts w 0) = Some Timeout /\
  specRetryPolicy Timeout 0 = giveUp 0 /\
  decisionTaken 0 (events r) = retryAfter 5000 0 /\
  decisionTaken 0 (events r) <> specRetryPolicy Timeout 0 /\
  sleeps (events r) = [5000; 10000; 15000]%Z /\
  fetches (final r) = 4%nat /\
  result r = Threw "Request timeout - Apple API did not respond in time".
Proof. vm_compute. repeat split. discriminate. Qed.

(** ** The monitoring service *)

Section Engine.
Variable w : World.
Variable partNumber : string.
Variable intervalMs : Z.

Lemma detectStatusChange_eq (currentStock : StockData.t) (m : Machine) :
  _detectStatusChange currentStock m =
  (Returned (detectChange (lastKnownStatus m) currentStock), m, []).
Proof.
  unfold _detectStatusChange, detectChange. run.
  destruct (lastKnownStatus m) as [p|]; [|reflexivity].
  now destruct (_ || _).
Qed.

(** One check, by what the fetch comes to. *)
Lemma performCheck_eq (m : Machine) :
  _performCheck w partNumber m =
  match checkAvailability w partNumber 0
          (set_checkCount (S (checkCount m)) m) with
  | (Threw e, mf, evf) => (Returned (), mf, evf ++ [CloseBrowser])
  | (Returned stockData, mf, evf) =>
    (Returned (),
     set_lastKnownStatus (Some (stored w stockData mf)) mf,
     evf ++
     (if (detectChange (lastKnownStatus mf) stockData
          || bool_decide (lastKnownStatus mf = None))
         && StockData.available stockData
      then [Notify stockData] else []) ++ [CloseBrowser])
  end.
Proof.
  unfold _performCheck, _performCheck_rest, _handleStatusChange,
    notifyStockAvailable, cleanup, _closeBrowser.
  rewrite tryCatchM_eq. unfold mbind at 1, M_bind at 1.
  unfold modify at 1. unfold mbind at 1, M_bind at 1.
  destruct (checkAvailability _ _ _ _) as [[[stockData|e] mf] evf];
    [|reflexivity].
  unfold mbind at 1, M_bind at 1. rewrite detectStatusChange_eq.
  run. unfold stored.
  destruct (detectChange (lastKnownStatus mf) stockData),
    (bool_decide (lastKnownStatus mf = None)),
    (StockData.available stockData); reflexivity.
Qed.

(** A check that is not awaited, in its two parts. *)
Lemma performCheck_split (m : Machine) :
  _performCheck w partNumber m =
  (_performCheck_launch;; _performCheck_resume w partNumber) m.
Proof.
  unfold _performCheck, _performCheck_launch, _performCheck_resume,
    tryCatchM, mbind, M_bind, modify.
  destruct (_performCheck_rest _ _ _) as [[[[]|e] m1] evs1]; [reflexivity|].
  now destruct (cleanup m1) as [[r m2] evs2].
Qed.

(** [start] on a stopped service: the timer is armed first, and the check
    runs with the timer armed. *)
Lemma start_stopped_eq (m : Machine) :
  isRunning m = false ->
  start w partNumber intervalMs m =
  prepend [SetInterval (timerSeq m) intervalMs]
    (_performCheck w partNumber (timerArmed m)).
Proof.
  intros H. rewrite performCheck_split.
  unfold start, setInterval, _performCheck_launch, prepend,
    mbind, M_bind, gets, modify, result, final, events.
  rewrite H. cbn beta iota.
  set (counted := set_checkCount (S (checkCount (set_isRunning true m)))
                    (set_isRunning true m)).
  change (set_checkCount _ (timerArmed m)) with
    (set_intervalId (Some (timerSeq m))
       (set_timers ({[timerSeq m]} ∪ timers counted) (S (timerSeq m))
          counted)).
  destruct (_performCheck_resume w partNumber _) as [[r m2] evs].
  reflexivity.
Qed.
End Engine.

Section EngineFacts.
Variable w : World.
Variable partNumber : string.

Local Abbreviation fetch m :=
  (checkAvailability w partNumber 0 (set_checkCount (S (checkCount m)) m))
  (only parsing).

(** The fetch of a check changes nothing of the service but the number of
    attempts made. *)
Lemma fetch_final (m : Machine) :
  exists n,
    final (fetch m) = set_fetches n (set_checkCount (S (checkCount m)) m) /\
    notifications (events (fetch m)) = [].
Proof.
  destruct (fetchOnly_checkAvailability w partNumber 0
              (set_checkCount (S (checkCount m)) m)) as [(n & Hn & _) Hno].
  now exists n.
Qed.

Lemma performCheck_returns (m : Machine) :
  result (_performCheck w partNumber m) = Returned () /\
  checkCount (final (_performCheck w partNumber m)) = S (checkCount m) /\
  isRunning (final (_performCheck w partNumber m)) = isRunning m /\
  intervalId (final (_performCheck w partNumber m)) = intervalId m /\
  timers (final (_performCheck w partNumber m)) = timers m.
Proof.
  rewrite performCheck_eq. destruct (fetch_final m) as (n & Hn & _).
  unfold final, result in *.
  destruct (checkAvailability _ _ _ _) as [[[sd|e] mf] evf];
    simpl in *; subst mf; now repeat split.
Qed.

Lemma performCheck_notifications (m : Machine) :
  notifications (events (_performCheck w partNumber m)) =
  match result (fetch m) with
  | Threw _ => []
  | Returned new =>
    if (detectChange (lastKnownStatus m) new
        || bool_decide (lastKnownStatus m = None))
       && StockData.available new
    then [new] else []
  end.
Proof.
  rewrite performCheck_eq. destruct (fetch_final m) as (n & Hn & Hno).
  unfold final, result, events in *.
  destruct (checkAvailability _ _ _ _) as [[[sd|e] mf] evf];
    simpl in *; subst mf; simpl; rewrite !notifications_app, Hno; simpl.
  - now destruct (_ && _).
  - reflexivity.
Qed.

End EngineFacts.

Lemma detectChange_true (previous : Status.t) (current : StockData.t) :
  detectChange (Some previous) current = true <->
  Status.available previous <> StockData.available current \/
  Status.message previous <> StockData.message current.
Proof.
  unfold detectChange.
  rewrite orb_true_iff, !negb_true_iff, eqb_false_iff, String.eqb_neq.
  reflexivity.
Qed.


(** C3.  [_detectStatusChange] reads the state and changes nothing; it
    returns [false] when there is no previous status, and otherwise [true]
    exactly when the availability or the message differs from the previous
    one, so [false] for a repeat of the same availability and message. *)
Theorem detectStatusChange_spec (current : StockData.t) (m : Machine) :
  let r := _detectStatusChange current m in
  final r = m /\ events r = [] /\
  (lastKnownStatus m = None -> result r = Returned false) /\
  (forall previous,
     lastKnownStatus m = Some previous ->
     exists changed,
       result r = Returned changed /\
       (changed = true <->
        Status.available previous <> StockData.available current \/
        Status.message previous <> StockData.message current)) /\
  (forall previous,
     lastKnownStatus m = Some previous ->
     Status.available previous = StockData.available current ->
     Status.message previous = StockData.message current ->
     result r = Returned false).
Proof.
  intros r. subst r. rewrite detectStatusChange_eq.
  unfold final, events, result. simpl.
  split; [reflexivity|]. split; [reflexivity|]. split; [|split].
  - now intros ->.
  - intros previous ->. eexists. split; [reflexivity|].
    apply detectChange_true.
  - intros previous -> Ha Hm. f_equal. apply not_true_is_false.
    rewrite detectChange_true. intros [H | H]; contradiction.
Qed.

Lemma detectStatusChange_spec_witness :
  result (_detectStatusChange
            {| StockData.available := true;
               StockData.message := "Available Today";
               StockData.storeName := None; StockData.rawData := None |}
            newMachine) = Returned false.
Proof.
  apply (proj1 (proj2 (proj2 (detectStatusChange_spec _ newMachine)))).
  reflexivity.
Defined.



(** The sequences of the design document, section 8: the notifications of
    a first check, and of the check that follows it. *)
Example sequence_first_available :
  length (notifications (events (_performCheck
    (answering [quotePayload "MFYM4X/A" "Available Today"])
    "MFYM4X/A" newMachine))) = 1%nat.
Proof. vm_compute. reflexivity. Qed.

Example sequence_unavailable_available :
  let w := answering [quotePayload "MFYM4X/A" "Currently unavailable";
                      quotePayload "MFYM4X/A" "Available Today"] in
  let first := _performCheck w "MFYM4X/A" newMachine in
  let second := _performCheck w "MFYM4X/A" (final first) in
  length (notifications (events first)) = 0%nat /\
  length (notifications (events second)) = 1%nat.
Proof. vm_compute. split; reflexivity. Qed.

Example sequence_available_available :
  let w := answering [quotePayload "MFYM4X/A" "Available Today";
                      quotePayload "MFYM4X/A" "Available Today"] in
  let first := _performCheck w "MFYM4X/A" newMachine in
  let second := _performCheck w "MFYM4X/A" (final first) in
  length (notifications (events second)) = 0%nat.
Proof. vm_compute. reflexivity. Qed.

(** A change of the message alone, while the part stays available, is a
    change, and is notified. *)
Example sequence_available_message_changed :
  let w := answering [quotePayload "MFYM4X/A" "Available Today";
                      quotePayload "MFYM4X/A" "Available Today, 2 left"] in
  let first := _performCheck w "MFYM4X/A" newMachine in
  let second := _performCheck w "MFYM4X/A" (final first) in
  length (notifications (events second)) = 1%nat.
Proof. vm_compute. reflexivity. Qed.

Example sequence_available_unavailable :
  let w := answering [quotePayload "MFYM4X/A" "Available Today";
                      quotePayload "MFYM4X/A" "Currently unavailable"] in
  let first := _performCheck w "MFYM4X/A" newMachine in
  let second := _performCheck w "MFYM4X/A" (final first) in
  length (notifications (events second)) = 0%nat.
Proof. vm_compute. reflexivity. Qed.

(** C5.  A check whose fetch (the parse included) throws returns normally,
    leaves the last status as it was, dispatches no notification, counts as
    exactly one check, and leaves the service running with its timer armed:
    the next tick of the timer performs a further check. *)
Theorem failed_check_is_skipped
    (w : World) (partNumber : string) (m : Machine) (e : string) :
  result (checkAvailability w partNumber 0
            (set_checkCount (S (checkCount m)) m)) = Threw e ->
  let r := _performCheck w partNumber m in
  result r = Returned () /\
  lastKnownStatus (final r) = lastKnownStatus m /\
  notifications (events r) = [] /\
  checkCount (final r) = S (checkCount m) /\
  isRunning (final r) = isRunning m /\
  intervalId (final r) = intervalId m /\
  timers (final r) = timers m /\
  (forall id, id ∈ timers m ->
     let next := tick w partNumber id (final r) in
     result next = Returned () /\
     checkCount (final next) = S (S (checkCount m))).
Proof.
  intros He r.
  destruct (performCheck_returns w partNumber m)
    as (Hres & Hcount & Hrun & Hid & Htimers).
  fold r in Hres, Hcount, Hrun, Hid, Htimers.
  split; [assumption|]. split; [|split; [|split; [|split; [|split; [|split]]]]];
    try assumption.
  - subst r. rewrite performCheck_eq.
    destruct (fetch_final w partNumber m) as (n & Hn & _).
    unfold final, result in *.
    destruct (checkAvailability _ _ _ _) as [[[sd|e'] mf] evf];
      simpl in *; [discriminate | now subst mf].
  - subst r. now rewrite performCheck_notifications, He.
  - intros id Hin next. subst next. unfold tick. run.
    rewrite Htimers, (bool_decide_eq_true_2 _ Hin).
    destruct (performCheck_returns w partNumber (final r))
      as (Hres' & Hcount' & _).
    unfold final, result in *.
    destruct (_performCheck w partNumber r.1.2) as [[r' m'] evs'].
    simpl in *. subst r'. split; [reflexivity | congruence].
Qed.

Lemma failed_check_is_skipped_witness :
  let w := always (Response 200 (Returned None)) in
  let r := _performCheck w "MFYM4X/A" newMachine in
  result r = Returned () /\
  lastKnownStatus (final r) = None /\
  notifications (events r) = [] /\
  checkCount (final r) = 1%nat.
Proof.
  destruct (failed_check_is_skipped
              (always (Response 200 (Returned None))) "MFYM4X/A" newMachine
              ("Request failed: Response parsing failed: "
               +:+ typeErrorNull "body") eq_refl)
    as (Hres & Hlast & Hno & Hcount & _).
  repeat split; assumption.
Defined.

(** What the claim C6 says of [start] fails on the code: called on a running
    service, [start] throws nothing and returns as it does on a stopped one;
    called on a stopped service, [stop] throws nothing either. *)
Lemma lifecycle_misuse_does_not_throw :
  let w := always NoResponse in
  let running := set_isRunning true newMachine in
  threw (result (start w "MFYM4X/A" 300000 running)) = false /\
  result (start w "MFYM4X/A" 300000 running)
    = result (start w "MFYM4X/A" 300000 newMachine) /\
  threw (result (stop newMachine)) = false.
Proof. vm_compute. repeat split. Qed.

(** C6, as the code has it.  [start] on a running service and [stop] on a
    stopped one are turned away with a warning: the call returns normally,
    the state is left as it was, and nothing but the warning happens.  No
    call of [start] or [stop] ever throws. *)
Theorem lifecycle_misuse_is_warned
    (w : World) (partNumber : string) (intervalMs : Z) (m : Machine) :
  (isRunning m = true ->
   start w partNumber intervalMs m =
   (Returned (), m, [Warn "Monitoring service is already running"])) /\
  (isRunning m = false ->
   stop m = (Returned (), m, [Warn "Monitoring service is not running"])) /\
  threw (result (start w partNumber intervalMs m)) = false /\
  threw (result (stop m)) = false.
Proof.
  assert (Hstart : isRunning m = true ->
            start w partNumber intervalMs m =
            (Returned (), m, [Warn "Monitoring service is already running"])).
  { intros H. unfold start. run. now rewrite H. }
  assert (Hstop : isRunning m = false ->
            stop m =
            (Returned (), m, [Warn "Monitoring service is not running"])).
  { intros H. unfold stop. run. now rewrite H. }
  split; [assumption|]. split; [assumption|]. split.
  - destruct (isRunning m) eqn:E; [now rewrite Hstart|].
    rewrite (start_stopped_eq w partNumber intervalMs m E).
    change (result (prepend _ ?r)) with (result r).
    now rewrite (proj1 (performCheck_returns w partNumber (timerArmed m))).
  - destruct (isRunning m) eqn:E; [|now rewrite Hstop].
    unfold stop, clearInterval, cleanup, _closeBrowser. run. rewrite E. simpl.
    now destruct (intervalId m).
Qed.

Lemma lifecycle_misuse_is_warned_witness :
  start (always NoResponse) "MFYM4X/A" 300000 (set_isRunning true newMachine)
  = (Returned (), set_isRunning true newMachine,
     [Warn "Monitoring service is already running"]) /\
  stop newMachine
  = (Returned (), newMachine, [Warn "Monitoring service is not running"]).
Proof.
  split.
  - apply (proj1 (lifecycle_misuse_is_warned (always NoResponse) "MFYM4X/A"
                    300000 (set_isRunning true newMachine))).
    reflexivity.
  - apply (proj1 (proj2 (lifecycle_misuse_is_warned (always NoResponse)
                           "MFYM4X/A" 300000 newMachine))).
    reflexivity.
Defined.

(** C10.  [start] on a running service returns without changing anything:
    [isRunning], [checkCount], [lastKnownStatus], [intervalId] and the armed
    timers are as before, no timer is armed and no check is performed. *)
Theorem start_while_running_changes_nothing
    (w : World) (partNumber : string) (intervalMs : Z) (m : Machine) :
  isRunning m = true ->
  let r := start w partNumber intervalMs m in
  result r = Returned () /\
  final r = m /\
  isRunning (final r) = true /\
  checkCount (final r) = checkCount m /\
  lastKnownStatus (final r) = lastKnownStatus m /\
  intervalId (final r) = intervalId m /\
  timers (final r) = timers m /\
  fetches (final r) = fetches m /\
  (forall id ms, SetInterval id ms ∉ events r).
Proof.
  intros H r. subst r. unfold start. run. rewrite H. simpl.
  repeat split; try assumption.
  intros id ms Hin. apply list_elem_of_singleton in Hin. discriminate.
Qed.

Lemma start_while_running_changes_nothing_witness :
  let m := final (start (always NoResponse) "MFYM4X/A" 300000 newMachine) in
  let r := start (always NoResponse) "MFYM4X/A" 300000 m in
  final r = m /\ timers (final r) = timers m.
Proof.
  destruct (start_while_running_changes_nothing (always NoResponse)
              "MFYM4X/A" 300000
              (final (start (always NoResponse) "MFYM4X/A" 300000 newMachine))
              eq_refl)
    as (_ & Hfinal & _ & _ & _ & _ & Htimers & _).
  split; assumption.
Defined.

(** ** More about the fetch *)

Lemma prepend_nil {A} (r : completion A * Machine * list event) :
  prepend [] r = r.
Proof. now destruct r as [[c m] evs]. Qed.

Section FetchCases.
Variable w : World.
Variable partNumber : string.

Local Abbreviation body := (checkAvailability_body w partNumber)
  (only parsing).
Local Abbreviation attempted m :=
  (set_fetches (S (fetches m)) m) (only parsing).

Lemma catch_cases (retryCount : nat) (again : M StockData.t)
    (error : string) (m : Machine) :
  let r := checkAvailability_catch retryCount again error m in
  (includes error "status" = true /\ r = (Threw error, m, [])) \/
  (includes error "status" = false /\ (maxRetries <= retryCount)%nat /\
   r = (Threw (if includes error "timeout"
               then "Request timeout - Apple API did not respond in time"
               else "Request failed: " +:+ error), m, [])) \/
  (includes error "status" = false /\ (retryCount < maxRetries)%nat /\
   r = prepend [CloseBrowser; Sleep ((Z.of_nat retryCount + 1) * 5000)]
               (again m)).
Proof.
  intros r. subst r. destruct (includes error "status") eqn:He.
  - left. split; [reflexivity|]. now apply catch_status.
  - right. destruct (Nat.lt_ge_cases retryCount maxRetries) as [Hk|Hk].
    + right. split; [reflexivity|]. split; [assumption|].
      rewrite catch_retry by assumption.
      now destruct (again m) as [[r m2] evs].
    + left. split; [reflexivity|]. split; [assumption|].
      now apply catch_exhausted.
Qed.

(** What the [try] block comes to. *)
Lemma try_cases (retryCount : nat) (again : M StockData.t) (m : Machine) :
  let r := checkAvailability_try w partNumber retryCount again m in
  (exists data sd,
     attempts w (fetches m) = Response 200 (Returned data) /\
     _parseResponse partNumber data = Returned sd /\
     r = (Returned sd, attempted m, [])) \/
  (exists e, r = (Threw e, attempted m, [])) \/
  ((retryCount < maxRetries)%nat /\
   (exists json, attempts w (fetches m) = Response 541 json) /\
   r = prepend [CloseBrowser; Sleep ((Z.of_nat retryCount + 1) * 10000)]
               (again (attempted m))).
Proof.
  intros r. subst r.
  destruct (attempts w (fetches m)) as [e| |statusCode json] eqn:Ho.
  - right; left. exists e. apply try_thrown. now rewrite Ho.
  - right; left. eexists. apply try_thrown. now rewrite Ho.
  - destruct (statusCode =? 200)%Z eqn:H200.
    + apply Z.eqb_eq in H200 as ->. rewrite (try_200 _ _ _ _ _ _ Ho).
      destruct json as [data|e]; cbv beta iota;
        [|right; left; now exists e].
      destruct (_parseResponse partNumber data) as [sd|e] eqn:Hp.
      * left. exists data, sd. now repeat split.
      * right; left. now exists e.
    + destruct ((statusCode =? 541)%Z && (retryCount <? maxRetries)%nat)
        eqn:H541.
      * apply andb_true_iff in H541 as [Hc Hk].
        apply Z.eqb_eq in Hc as ->. apply Nat.ltb_lt in Hk.
        right; right. split; [assumption|]. split; [now exists json|].
        rewrite (try_541_retry _ _ _ _ _ _ Ho Hk).
        now destruct (again (attempted m)) as [[r m2] evs].
      * right; left. eexists.
        apply (try_status_terminal _ _ _ _ _ _ _ Ho H200 H541).
Qed.

Lemma body_eq (retryCount : nat) (again : M StockData.t) (m : Machine) :
  body retryCount again m =
  match checkAvailability_try w partNumber retryCount again m with
  | (Returned a, m1, evs1) => (Returned a, m1, evs1)
  | (Threw e, m1, evs1) =>
    prepend evs1 (checkAvailability_catch retryCount again e m1)
  end.
Proof.
  unfold checkAvailability_body. rewrite tryCatchM_eq.
  destruct (checkAvailability_try _ _ _ _ _) as [[[a|e] m1] evs1];
    [reflexivity|].
  now destruct (checkAvailability_catch _ _ _ _) as [[r m2] evs2].
Qed.

(** Induction over the calls of [checkAvailability]: a property of the
    call at [retryCount + 1], needed only while a retry is possible, is
    carried through the body of the call at [retryCount]. *)
Lemma check_ind (P : nat -> M StockData.t -> Prop) :
  (forall k again,
     ((k < maxRetries)%nat -> P (S k) again) -> P k (body k again)) ->
  forall k, P k (checkAvailability w partNumber k).
Proof.
  intros Hbody.
  assert (H : forall d k, (maxRetries - k <= d)%nat ->
                          P k (checkAvailability_depth w partNumber d k)).
  { induction d as [|d IH]; intros k Hd; apply Hbody; intros Hk;
      [lia | apply IH; lia]. }
  intros k. apply H. reflexivity.
Qed.
End FetchCases.

Section FetchProperties.
Variable w : World.
Variable partNumber : string.

Local Abbreviation check := (checkAvailability w partNumber) (only parsing).
Local Abbreviation body := (checkAvailability_body w partNumber)
  (only parsing).
Local Abbreviation attempted m :=
  (set_fetches (S (fetches m)) m) (only parsing).

(** The cases of one call, the [try] block and the [catch] clause
    together. *)
Lemma body_cases (k : nat) (again : M StockData.t) (m : Machine) :
  let r := body k again m in
  let m1 := attempted m in
  let rejected := [CloseBrowser; Sleep ((Z.of_nat k + 1) * 10000)] in
  let failed := [CloseBrowser; Sleep ((Z.of_nat k + 1) * 5000)] in
  (* the attempt is answered and parsed *)
  (exists data sd,
     attempts w (fetches m) = Response 200 (Returned data) /\
     _parseResponse partNumber data = Returned sd /\
     r = (Returned sd, m1, [])) \/
  (* the attempt fails and the call gives up *)
  (exists e,
     r = (Threw e, m1, []) /\
     (includes e "status" = true \/
      (maxRetries <= k)%nat /\
      (e = "Request timeout - Apple API did not respond in time" \/
       exists e', e = "Request failed: " +:+ e'))) \/
  (* the attempt fails and the call retries *)
  ((k < maxRetries)%nat /\ r = prepend failed (again m1)) \/
  (* the attempt is rejected with 541 and the call retries *)
  ((k < maxRetries)%nat /\
   (exists json, attempts w (fetches m) = Response 541 json) /\
   ((exists sd, result (again m1) = Returned sd /\
                r = prepend rejected (again m1)) \/
    (exists e, result (again m1) = Threw e /\
               includes e "status" = true /\
               r = prepend rejected (again m1)) \/
    (exists e, result (again m1) = Threw e /\
               includes e "status" = false /\
               r = prepend (rejected ++ events (again m1) ++ failed)
                           (again (final (again m1)))))).
Proof.
  intros r m1 rejected failed. subst r m1 rejected failed. rewrite body_eq.
  destruct (try_cases w partNumber k again m)
    as [(data & sd & Ho & Hp & ->) | [[e ->] | (Hk & Hj & ->)]];
    cbv beta iota.
  - left. now exists data, sd.
  - rewrite prepend_nil.
    destruct (catch_cases k again e (attempted m))
      as [[He ->] | [(He & Hk & ->) | (He & Hk & ->)]].
    + right; left. exists e. auto.
    + right; left. eexists. split; [reflexivity|]. right.
      split; [assumption|]. destruct (includes e "timeout"); eauto.
    + right; right; left. now split.
  - right; right; right. split; [assumption|]. split; [assumption|].
    destruct (again (attempted m)) as [[[sd|e] m2] evs] eqn:Ha;
      unfold prepend, result, final, events; simpl.
    + left. now exists sd.
    + destruct (catch_cases k again e m2)
        as [[He ->] | [(He & Hk' & ->) | (He & Hk' & ->)]].
      * right; left. exists e. simpl. now rewrite app_nil_r.
      * unfold maxRetries in *. lia.
      * right; right. exists e. split; [reflexivity|].
        split; [assumption|].
        destruct (again m2) as [[rb mb] evb].
        unfold prepend, result, final, events. simpl.
        now rewrite <- !app_assoc.
Qed.
End FetchProperties.

Lemma waits_app (evs1 evs2 : list event) :
  waits evs1 -> waits evs2 -> waits (evs1 ++ evs2).
Proof.
  induction 1 as [|ms evs Hms _ IH]; intros H2; [assumption|].
  simpl. constructor; auto.
Qed.

Lemma totalSleep_app (evs1 evs2 : list event) :
  totalSleep (evs1 ++ evs2) = (totalSleep evs1 + totalSleep evs2)%Z.
Proof.
  unfold totalSleep, sleeps. rewrite omap_app.
  induction (omap _ evs1) as [|x l IH]; simpl; [reflexivity | lia].
Qed.

Lemma totalSleep_pair (ms : Z) (evs : list event) :
  totalSleep (CloseBrowser :: Sleep ms :: evs) = (ms + totalSleep evs)%Z.
Proof. reflexivity. Qed.

Lemma totalSleep_nil : totalSleep [] = 0%Z.
Proof. reflexivity. Qed.

Lemma waits_no_notification (evs : list event) :
  waits evs -> notifications evs = [].
Proof. induction 1; [reflexivity | assumption]. Qed.

Lemma prepend_result {A} (evs : list event)
    (r : completion A * Machine * list event) :
  result (prepend evs r) = result r /\ final (prepend evs r) = final r /\
  events (prepend evs r) = evs ++ events r.
Proof. now destruct r as [[c m] evs']. Qed.

Section FetchBounds.
Variable w : World.
Variable partNumber : string.

Local Abbreviation check := (checkAvailability w partNumber) (only parsing).

(** X1.  A call [checkAvailability(k)] makes at least one attempt and at
    most 15, 7, 3 or 1 for [k] = 0, 1, 2 and 3 or more; the bound of 15 is
    reached, by a world whose rejections with 541 are followed by transport
    failures. *)
Theorem checkAvailability_attempts_bounded (k : nat) (m : Machine) :
  (fetches m < fetches (final (check k m)))%nat /\
  (fetches (final (check k m)) <= fetches m + maxAttempts k)%nat /\
  fetches (final (checkAvailability worstWorld partNumber 0 newMachine))
    = 15%nat.
Proof.
  split; [|split]; [| |vm_compute; reflexivity].
  - destruct (fetchOnly_checkAvailability w partNumber k m)
      as [(n & -> & Hle) _]. simpl. lia.
  - revert m. pattern k, (check k). apply check_ind. clear k.
    intros k again IH m.
    destruct (body_cases w partNumber k again m)
      as [(data & sd & _ & _ & ->)
         | [(e & -> & _)
           | [(Hk & ->)
             | (Hk & _ & [(sd & _ & ->) | [(e & _ & _ & ->)
                                          | (e & _ & _ & ->)]])]]];
      try (unfold final; simpl; destruct k as [|[|[|k]]]; simpl; lia);
      rewrite (proj1 (proj2 (prepend_result _ _))).
    + pose proof (IH Hk (set_fetches (S (fetches m)) m)) as H1.
      unfold maxRetries in Hk.
      destruct k as [|[|[|k]]]; simpl in *; lia.
    + pose proof (IH Hk (set_fetches (S (fetches m)) m)) as H1.
      unfold maxRetries in Hk.
      destruct k as [|[|[|k]]]; simpl in *; lia.
    + pose proof (IH Hk (set_fetches (S (fetches m)) m)) as H1.
      unfold maxRetries in Hk.
      destruct k as [|[|[|k]]]; simpl in *; lia.
    + pose proof (IH Hk (set_fetches (S (fetches m)) m)) as H1.
      pose proof (IH Hk (final (again (set_fetches (S (fetches m)) m))))
        as H2.
      unfold maxRetries in Hk.
      destruct k as [|[|[|k]]]; simpl in *; lia.
Qed.
End FetchBounds.

Section FetchResults.
Variable w : World.
Variable partNumber : string.

Local Abbreviation check := (checkAvailability w partNumber) (only parsing).

(** X2.  What [checkAvailability] returns is what [_parseResponse] makes of
    the payload of the last attempt made, an attempt answered with status
    200: nothing is returned from a response with another status, from an
    earlier attempt, or without a parse. *)
Theorem checkAvailability_returns_last_response
    (k : nat) (m : Machine) (sd : StockData.t) :
  result (check k m) = Returned sd ->
  exists data,
    attempts w (fetches (final (check k m)) - 1)
      = Response 200 (Returned data) /\
    _parseResponse partNumber data = Returned sd.
Proof.
  revert m sd. pattern k, (check k). apply check_ind. clear k.
  intros k again IH m sd.
  destruct (body_cases w partNumber k again m)
    as [(data & sd' & Ho & Hp & ->)
       | [(e & -> & _)
         | [(Hk & ->)
           | (Hk & _ & [(sd' & _ & ->) | [(e & _ & _ & ->)
                                         | (e & _ & _ & ->)]])]]];
    try rewrite (proj1 (prepend_result _ _));
    try rewrite (proj1 (proj2 (prepend_result _ _))).
  - unfold result, final. simpl. intros [= <-]. exists data.
    now rewrite Nat.sub_0_r.
  - discriminate.
  - now apply IH.
  - now apply IH.
  - now apply IH.
  - now apply IH.
Qed.

Lemma check_waits (k : nat) (m : Machine) :
  waits (events (check k m)) /\
  (0 <= totalSleep (events (check k m)) <= maxWait k)%Z.
Proof.
  revert m. pattern k, (check k). apply check_ind. clear k.
  intros k again IH m.
  assert (Hnil : waits [] /\ (0 <= totalSleep [] <= maxWait k)%Z).
  { split; [constructor|]. destruct k as [|[|[|k]]]; simpl;
      unfold totalSleep; simpl; lia. }
  destruct (body_cases w partNumber k again m)
    as [(data & sd' & Ho & Hp & ->)
       | [(e & -> & _)
         | [(Hk & ->)
           | (Hk & _ & [(sd' & _ & ->) | [(e & _ & _ & ->)
                                         | (e & _ & _ & ->)]])]]];
    try exact Hnil;
    rewrite (proj2 (proj2 (prepend_result _ _)));
    destruct (IH Hk (set_fetches (S (fetches m)) m)) as [Hw1 Ht1];
    unfold maxRetries in Hk.
  1-3: split;
    [simpl; constructor; [lia | assumption]
    | rewrite totalSleep_app, totalSleep_pair, totalSleep_nil;
      destruct k as [|[|[|k]]]; simpl maxWait in *; lia].
  destruct (IH Hk (final (again (set_fetches (S (fetches m)) m))))
    as [Hw2 Ht2].
  split.
  - simpl. constructor; [lia|].
    apply waits_app; [|assumption].
    apply waits_app; [assumption|]. constructor; [lia | constructor].
  - rewrite !totalSleep_app, !totalSleep_pair, totalSleep_nil.
    destruct k as [|[|[|k]]]; simpl maxWait in *; lia.
Qed.

(** X3.  Before every retry a fetch tears the browser down and then waits
    out a retry delay of 5 to 30 seconds; it sends no notification and
    touches no timer.  The retry delays of a call [checkAvailability(k)] add
    up to at most 255, 120 and 45 seconds for [k] = 0, 1 and 2, a call with
    [k] of 3 or more has none, and 255 seconds is reached.  The pauses
    inside an attempt are not retry delays and are not counted. *)
Theorem checkAvailability_waits (k : nat) (m : Machine) :
  waits (events (check k m)) /\
  (0 <= totalSleep (events (check k m)) <= maxWait k)%Z /\
  totalSleep
    (events (checkAvailability worstWorld partNumber 0 newMachine))
    = 255000%Z.
Proof.
  split; [apply check_waits|]. split; [apply check_waits|].
  vm_compute. reflexivity.
Qed.

(** X4.  The message of an error [checkAvailability] throws contains
    "status", or is "Request timeout - Apple API did not respond in time",
    or starts with "Request failed: ". *)
Theorem checkAvailability_thrown_messages
    (k : nat) (m : Machine) (e : string) :
  result (check k m) = Threw e ->
  includes e "status" = true \/
  e = "Request timeout - Apple API did not respond in time" \/
  exists e', e = "Request failed: " +:+ e'.
Proof.
  revert m e. pattern k, (check k). apply check_ind. clear k.
  intros k again IH m e.
  destruct (body_cases w partNumber k again m)
    as [(data & sd' & Ho & Hp & ->)
       | [(e0 & -> & He0)
         | [(Hk & ->)
           | (Hk & _ & [(sd' & Hr & ->) | [(e0 & Hr & He0 & ->)
                                          | (e0 & _ & _ & ->)]])]]];
    try rewrite (proj1 (prepend_result _ _)).
  - discriminate.
  - unfold result. simpl. intros [= <-]. tauto.
  - now apply IH.
  - rewrite Hr. discriminate.
  - rewrite Hr. intros [= <-]. now left.
  - now apply IH.
Qed.
End FetchResults.

Section FetchClassification.
Variable w : World.
Variable partNumber : string.

Local Abbreviation check := (checkAvailability w partNumber) (only parsing).
Local Abbreviation attempted m :=
  (set_fetches (S (fetches m)) m) (only parsing).

Lemma parse_threw_message (data : option Payload) (e : string) :
  _parseResponse partNumber data = Threw e ->
  e = "Response parsing failed: " +:+ typeErrorNull "body" \/
  e = "Response parsing failed: " +:+ typeErrorNull "partsAvailability".
Proof.
  intros H.
  destruct (payload_cases data)
    as [-> | [[rest Hs] | [[Hd He] | (d & store & rest & -> & Hs)]]].
  - left. rewrite parse_null in H. congruence.
  - right. destruct data as [d|]; [|discriminate].
    rewrite (parse_store_null _ _ _ Hs) in H. congruence.
  - destruct data as [d|]; [|congruence].
    now rewrite (parse_no_stores _ _ He) in H.
  - now rewrite (parse_store _ _ _ _ Hs) in H.
Qed.

(** A call whose [try] block throws [e] at once. *)
Lemma check_thrown_in_try (k : nat) (m : Machine) (e : string) :
  checkAvailability_try w partNumber k (check (S k)) m
    = (Threw e, attempted m, []) ->
  check k m = checkAvailability_catch k (check (S k)) e (attempted m).
Proof.
  intros H. rewrite check_eq, H.
  now destruct (checkAvailability_catch _ _ _ _) as [[r m2] evs].
Qed.

(** X5.  A payload the parser rejects is handled as a transport failure:
    the error of [_parseResponse] does not contain "status", so the call
    closes the browser, waits [(k+1) * 5 s] and fetches again while
    [k < 3], and gives up only at [k = 3]. *)
Theorem parse_failure_is_retried
    (k : nat) (m : Machine) (data : option Payload) (e : string) :
  attempts w (fetches m) = Response 200 (Returned data) ->
  _parseResponse partNumber data = Threw e ->
  decisionTaken k (events (check k m)) = specRetryPolicy Transport k /\
  ((k < 3)%nat -> (fetches m + 2 <= fetches (final (check k m)))%nat) /\
  ((3 <= k)%nat ->
   check k m = (Threw ("Request failed: " +:+ e), attempted m, [])).
Proof.
  intros Ho Hp.
  assert (He : includes e "status" = false /\ includes e "timeout" = false).
  { destruct (parse_threw_message _ _ Hp) as [-> | ->]; now split. }
  destruct He as [He Ht].
  assert (Hc : check k m =
               checkAvailability_catch k (check (S k)) e (attempted m)).
  { apply check_thrown_in_try. rewrite (try_200 _ _ _ _ _ _ Ho).
    now rewrite Hp. }
  rewrite Hc.
  destruct (catch_cases k (check (S k)) e (attempted m))
    as [[He' _] | [(_ & Hk & ->) | (_ & Hk & ->)]]; [congruence| |];
    unfold maxRetries in Hk.
  - rewrite Ht. repeat split; [|lia].
    simpl. apply Nat.ltb_ge in Hk. now rewrite Hk.
  - destruct (prepend_result
                [CloseBrowser; Sleep ((Z.of_nat k + 1) * 5000)]
                (check (S k) (attempted m))) as (_ & -> & ->).
    split; [|split; [|lia]].
    + simpl. apply Nat.ltb_lt in Hk. now rewrite Hk.
    + intros _.
      pose proof (check_fetches w partNumber (S k) (attempted m)) as Hle.
      simpl in Hle. lia.
Qed.

(** X6.  An error raised in the [try] block, by a browser step or by
    [apiResponse.json()], whose message contains "status" is never retried:
    whatever [k], the call throws that same error after its single
    attempt. *)
Theorem status_in_message_is_not_retried
    (k : nat) (m : Machine) (e : string) :
  thrownBy (attempts w (fetches m)) = Some e \/
  attempts w (fetches m) = Response 200 (Threw e) ->
  includes e "status" = true ->
  check k m = (Threw e, attempted m, []).
Proof.
  intros Ho He.
  rewrite (check_thrown_in_try k m e).
  - now apply catch_status.
  - destruct Ho as [Ho | Ho];
      [now apply try_thrown | now rewrite (try_200 _ _ _ _ _ _ Ho)].
Qed.
End FetchClassification.

Lemma checkAvailability_returns_last_response_witness :
  exists data,
    attempts (answering [quotePayload "MFYM4X/A" "Available Today"])
             (1 - 1)
      = Response 200 (Returned data) /\
    exists sd, _parseResponse "MFYM4X/A" data = Returned sd /\
               StockData.available sd = true.
Proof.
  destruct (checkAvailability_returns_last_response
              (answering [quotePayload "MFYM4X/A" "Available Today"])
              "MFYM4X/A" 0 newMachine _ eq_refl) as (data & Ho & Hp).
  exists data. split; [exact Ho|]. eexists. split; [exact Hp|].
  reflexivity.
Defined.

Lemma checkAvailability_thrown_messages_witness :
  includes (statusMessage 503) "status" = true \/
  statusMessage 503 = "Request timeout - Apple API did not respond in time" \/
  exists e', statusMessage 503 = "Request failed: " +:+ e'.
Proof.
  apply (checkAvailability_thrown_messages
           (always (Response 503 (Returned None))) "MFYM4X/A" 0 newMachine).
  reflexivity.
Defined.

Lemma parse_failure_is_retried_witness :
  decisionTaken 0
    (events (checkAvailability (always (Response 200 (Returned None)))
                               "MFYM4X/A" 0 newMachine))
  = retryAfter 5000 0.
Proof.
  apply (parse_failure_is_retried
           (always (Response 200 (Returned None))) "MFYM4X/A" 0 newMachine
           None ("Response parsing failed: " +:+ typeErrorNull "body"));
    reflexivity.
Defined.

Lemma status_in_message_is_not_retried_witness :
  checkAvailability
    (always (PageError "net::ERR_INVALID_HTTP_RESPONSE (status line)"))
    "MFYM4X/A" 0 newMachine
  = (Threw "net::ERR_INVALID_HTTP_RESPONSE (status line)",
     set_fetches 1 newMachine, []).
Proof.
  apply (status_in_message_is_not_retried
           (always (PageError "net::ERR_INVALID_HTTP_RESPONSE (status line)"))
           "MFYM4X/A" 0 newMachine);
    [left; reflexivity | reflexivity].
Defined.

(** ** More about the monitoring service *)

Section EngineRuns.
Variable w : World.
Variable partNumber : string.
Variable intervalMs : Z.

Local Abbreviation performCheck := (_performCheck w partNumber)
  (only parsing).

(** A check touches [checkCount], [lastKnownStatus] and the count of
    attempts, and nothing else. *)
Lemma performCheck_final (m : Machine) :
  exists n ls,
    final (performCheck m) =
    set_lastKnownStatus ls
      (set_fetches n (set_checkCount (S (checkCount m)) m)).
Proof.
  rewrite performCheck_eq.
  destruct (fetch_final w partNumber m) as (n & Hn & _).
  unfold final in *.
  destruct (checkAvailability _ _ _ _) as [[[sd|e] mf] evf];
    simpl in *; subst mf.
  - now eexists _, _.
  - exists n, (lastKnownStatus m). now destruct m.
Qed.

Lemma performCheck_result (m : Machine) :
  result (performCheck m) = Returned ().
Proof. apply performCheck_returns. Qed.

Lemma performCheck_run (m : Machine) :
  exists m1 evs, performCheck m = (Returned (), m1, evs).
Proof.
  pose proof (performCheck_result m) as H. unfold result in H.
  destruct (performCheck m) as [[r m1] evs]. simpl in H. subst r.
  now exists m1, evs.
Qed.

Lemma start_from_stopped_frame (m : Machine) :
  isRunning m = false ->
  isRunning (final (start w partNumber intervalMs m)) = true /\
  intervalId (final (start w partNumber intervalMs m)) = Some (timerSeq m) /\
  timers (final (start w partNumber intervalMs m))
    = {[timerSeq m]} ∪ timers m /\
  timerSeq (final (start w partNumber intervalMs m)) = S (timerSeq m) /\
  checkCount (final (start w partNumber intervalMs m)) = S (checkCount m).
Proof.
  intros H. rewrite (start_stopped_eq w partNumber intervalMs m H).
  change (final (prepend _ ?r)) with (final r).
  destruct (performCheck_final (timerArmed m)) as (n & ls & ->).
  now repeat split.
Qed.

Lemma stop_running_frame (m : Machine) :
  isRunning m = true ->
  isRunning (final (stop m)) = false /\
  intervalId (final (stop m)) = None /\
  timers (final (stop m)) =
    match intervalId m with
    | Some id => timers m ∖ {[id]}
    | None => timers m
    end /\
  timerSeq (final (stop m)) = timerSeq m.
Proof.
  intros H. unfold stop, clearInterval, cleanup, _closeBrowser. run.
  rewrite H. simpl. destruct (intervalId m) eqn:Hid; simpl; now repeat split.
Qed.

(** X7.  [start] on a stopped service sets [isRunning] and arms exactly
    one timer, of period [intervalMs], whose handle it keeps in
    [intervalId]; the timers armed before stay armed.  The timer is armed
    before the first check does anything: what the check does follows the
    arming, and is what a check does on a running service whose timer is
    armed.  That check counts once; [start] does not throw. *)
Theorem start_from_stopped (m : Machine) :
  isRunning m = false ->
  let r := start w partNumber intervalMs m in
  result r = Returned () /\
  isRunning (final r) = true /\
  checkCount (final r) = S (checkCount m) /\
  intervalId (final r) = Some (timerSeq m) /\
  timers (final r) = {[timerSeq m]} ∪ timers m /\
  timerSeq (final r) = S (timerSeq m) /\
  isRunning (timerArmed m) = true /\
  intervalId (timerArmed m) = Some (timerSeq m) /\
  timerSeq m ∈ timers (timerArmed m) /\
  final r = final (performCheck (timerArmed m)) /\
  events r =
    SetInterval (timerSeq m) intervalMs
    :: events (performCheck (timerArmed m)).
Proof.
  intros H r.
  destruct (start_from_stopped_frame m H) as (Hr & Hi & Ht & Hs & Hc).
  fold r in Hr, Hi, Ht, Hs, Hc.
  assert (Heq : r = prepend [SetInterval (timerSeq m) intervalMs]
                      (performCheck (timerArmed m)))
    by apply (start_stopped_eq w partNumber intervalMs m H).
  split; [rewrite Heq; apply performCheck_result|].
  do 5 (split; [assumption|]).
  split; [reflexivity|]. split; [reflexivity|].
  split; [apply elem_of_union_l, elem_of_singleton; reflexivity|].
  rewrite Heq. split; reflexivity.
Qed.

(** X8.  [stop] on a running service returns normally, clears [isRunning]
    and [intervalId], disarms the timer it held and closes the browser,
    leaving [checkCount] and [lastKnownStatus] as they were.  When that
    timer was the one timer armed, no timer is left and no tick performs a
    check any more. *)
Theorem stop_running (m : Machine) :
  isRunning m = true ->
  let r := stop m in
  result r = Returned () /\
  isRunning (final r) = false /\
  intervalId (final r) = None /\
  timers (final r) =
    match intervalId m with
    | Some id => timers m ∖ {[id]}
    | None => timers m
    end /\
  checkCount (final r) = checkCount m /\
  lastKnownStatus (final r) = lastKnownStatus m /\
  last (events r) = Some CloseBrowser /\
  (wellFormed m ->
   timers (final r) = ∅ /\
   forall id, tick w partNumber id (final r) = (Returned (), final r, [])).
Proof.
  intros H r. subst r.
  unfold stop, clearInterval, cleanup, _closeBrowser. run. rewrite H. simpl.
  destruct (intervalId m) as [id|] eqn:Hid; simpl;
    (do 7 (split; [reflexivity || assumption|]));
    intros [_ Hwf]; rewrite Hid in Hwf; destruct Hwf as [Hrun Ht];
    [|congruence].
  assert (Hempty : timers m ∖ {[id]} = ∅)
    by (rewrite Ht; apply difference_diag_L).
  split; [assumption|].
  intros id'. unfold tick. run. rewrite Hempty.
  now rewrite bool_decide_eq_false_2 by apply not_elem_of_empty.
Qed.
End EngineRuns.

Section EngineInvariants.
Variable w : World.
Variable partNumber : string.
Variable intervalMs : Z.

Local Abbreviation performCheck := (_performCheck w partNumber)
  (only parsing).
Local Abbreviation run_ ops m := (runOps w partNumber intervalMs ops m)
  (only parsing).

Lemma performCheck_wellFormed (m : Machine) :
  wellFormed m -> wellFormed (final (performCheck m)).
Proof.
  destruct (performCheck_final w partNumber m) as (n & ls & ->).
  now intros [Hlt Hid].
Qed.

Lemma tick_eq (id : nat) (m : Machine) :
  tick w partNumber id m =
  if bool_decide (id ∈ timers m) then performCheck m
  else (Returned (), m, []).
Proof.
  unfold tick. run. destruct (bool_decide (id ∈ timers m)); [|reflexivity].
  now destruct (performCheck m) as [[r m1] evs].
Qed.

Lemma step_wellFormed (o : op) (m : Machine) :
  wellFormed m -> wellFormed (final (step w partNumber intervalMs o m)).
Proof.
  intros Hwf. destruct o as [| |id]; simpl.
  - destruct (isRunning m) eqn:Hrun.
    + unfold start. run. now rewrite Hrun.
    + destruct (start_from_stopped_frame w partNumber intervalMs m Hrun)
        as (Hr & Hi & Ht & Hs & _).
      destruct Hwf as [Hlt Hid].
      destruct (intervalId m) as [id|]; [destruct Hid; congruence|].
      destruct Hid as [_ Hempty]. split.
      * intros id. rewrite Ht, Hs, Hempty, union_empty_r_L.
        intros ->%elem_of_singleton. lia.
      * rewrite Hi. split; [assumption|].
        now rewrite Ht, Hempty, union_empty_r_L.
  - destruct (isRunning m) eqn:Hrun.
    + destruct (stop_running_frame m Hrun) as (Hr & Hi & Ht & Hs).
      destruct Hwf as [Hlt Hid]. split.
      * intros id. rewrite Hs, Ht.
        destruct (intervalId m); intros Hin; apply Hlt; [|assumption].
        now apply elem_of_difference in Hin as [Hin _].
      * rewrite Hi. split; [assumption|]. rewrite Ht.
        destruct (intervalId m) as [id|]; destruct Hid as [_ ->];
          [apply difference_diag_L | reflexivity].
    + unfold stop. run. now rewrite Hrun.
  - rewrite tick_eq. destruct (bool_decide (id ∈ timers m)); [|assumption].
    now apply performCheck_wellFormed.
Qed.
End EngineInvariants.

Section EngineTheorems.
Variable w : World.
Variable partNumber : string.
Variable intervalMs : Z.

Local Abbreviation performCheck := (_performCheck w partNumber)
  (only parsing).

Lemma runOps_wellFormed (ops : list op) (m : Machine) :
  wellFormed m -> wellFormed (runOps w partNumber intervalMs ops m).
Proof.
  revert m. induction ops as [|o ops IH]; intros m Hwf; [assumption|].
  apply IH. now apply step_wellFormed.
Qed.

(** X9.  Whatever calls of [start] and [stop] and whatever ticks reach a
    newly constructed service, in any order, at most one timer is armed,
    the service is running exactly when one is, and [intervalId] is the
    handle of that timer. *)
Theorem one_timer_while_running (ops : list op) :
  let m := runOps w partNumber intervalMs ops newMachine in
  wellFormed m /\
  (size (timers m) <= 1)%nat /\
  (isRunning m = true <-> exists id, timers m = {[id]}) /\
  (isRunning m = true <-> exists id, intervalId m = Some id) /\
  (forall id, intervalId m = Some id -> timers m = {[id]}).
Proof.
  intros m.
  assert (Hwf : wellFormed m).
  { apply runOps_wellFormed. split; [|now split].
    intros id Hin. now apply not_elem_of_empty in Hin. }
  split; [assumption|]. destruct Hwf as [_ Hid].
  destruct (intervalId m) as [id|]; destruct Hid as [Hrun Ht];
    rewrite Hrun, Ht.
  - split; [now rewrite size_singleton|]. split; [|split].
    + split; [intros _; now exists id | reflexivity].
    + split; [intros _; now exists id | reflexivity].
    + now intros id' [= <-].
  - split; [rewrite size_empty; lia|]. split; [|split].
    + split; [discriminate|]. intros [id Hid].
      assert (Hin : id ∈ (∅ : gset nat)) by (rewrite Hid; set_solver).
      now apply not_elem_of_empty in Hin.
    + split; [discriminate | now intros [id Hid]].
    + discriminate.
Qed.

(** X10.  No call resets or lowers [checkCount]: [stop] leaves it as it
    is, and [start] and a tick raise it by one when they perform a check
    and leave it otherwise, so after any calls it has grown by at most
    their number. *)
Theorem checkCount_only_grows (ops : list op) (m : Machine) :
  (forall o,
     let m' := final (step w partNumber intervalMs o m) in
     checkCount m' = checkCount m \/ checkCount m' = S (checkCount m)) /\
  checkCount (final (stop m)) = checkCount m /\
  (checkCount m <= checkCount (runOps w partNumber intervalMs ops m)
   <= checkCount m + length ops)%nat.
Proof.
  assert (Hstop : forall m, checkCount (final (stop m)) = checkCount m).
  { intros m0. unfold stop, clearInterval, cleanup, _closeBrowser. run.
    destruct (isRunning m0); simpl; [|reflexivity].
    now destruct (intervalId m0). }
  assert (Hstep : forall o m,
            let m' := final (step w partNumber intervalMs o m) in
            checkCount m' = checkCount m \/
            checkCount m' = S (checkCount m)).
  { intros o m0 m'. subst m'. destruct o as [| |id]; simpl.
    - destruct (isRunning m0) eqn:Hrun.
      + left. unfold start. run. now rewrite Hrun.
      + right.
        apply (start_from_stopped_frame w partNumber intervalMs m0 Hrun).
    - left. apply Hstop.
    - rewrite tick_eq. destruct (bool_decide _); [right | now left].
      now destruct (performCheck_final w partNumber m0) as (n & ls & ->). }
  split; [intros o; apply Hstep|]. split; [apply Hstop|].
  revert m. induction ops as [|o ops IH]; intros m; simpl; [lia|].
  specialize (IH (final (step w partNumber intervalMs o m))).
  destruct (Hstep o m) as [H | H]; rewrite H in IH; lia.
Qed.
End EngineTheorems.

Section CheckTheorems.
Variable w : World.
Variable partNumber : string.

Local Abbreviation performCheck := (_performCheck w partNumber)
  (only parsing).
Local Abbreviation fetch m :=
  (checkAvailability w partNumber 0 (set_checkCount (S (checkCount m)) m))
  (only parsing).



(** X13.  Every check returns normally and counts once.  Of teardowns,
    retry delays, notifications and timers, what it does is, in order: the
    teardowns and retry delays of its fetch, at most one notification, for
    an available snapshot, and a last teardown of the browser.  It arms and
    disarms no timer. *)
Theorem check_trace (m : Machine) :
  let r := performCheck m in
  result r = Returned () /\
  checkCount (final r) = S (checkCount m) /\
  timers (final r) = timers m /\
  intervalId (final r) = intervalId m /\
  exists evs ns,
    events r = evs ++ ns ++ [CloseBrowser] /\
    waits evs /\
    (ns = [] \/ exists sd, ns = [Notify sd] /\ StockData.available sd = true).
Proof.
  intros r. subst r.
  split; [apply performCheck_returns|]. split; [apply performCheck_returns|].
  split; [apply performCheck_returns|]. split; [apply performCheck_returns|].
  rewrite performCheck_eq.
  pose proof (check_waits w partNumber 0
                (set_checkCount (S (checkCount m)) m)) as [Hw _].
  unfold events in *.
  destruct (checkAvailability _ _ _ _) as [[[sd|e] mf] evf]; simpl in *.
  - eexists evf, _. split; [reflexivity|]. split; [assumption|].
    destruct (StockData.available sd) eqn:Ha;
      rewrite ?andb_false_r, ?andb_true_r; [|now left].
    destruct (_ || _); [right | now left]. now exists sd.
  - exists evf, []. split; [reflexivity|]. split; [assumption | now left].
Qed.
End CheckTheorems.

(** ** More about the notifier and the configuration *)

Section PushoverTheorems.
Variable inherits : Js.kind -> string -> bool.
Variable apiKey userKey : string.
Variable request : Pushover.Request -> completion (option Pushover.Response).

(** X15.  [sendNotification] never throws: it answers [true] exactly when
    the request comes back with an object whose [status] is 1, and [false]
    when the request fails, or comes back with [null] or another status.
    The priority it sends is -1 for "low", 1 for "high", and 0 for "normal"
    and for every other name that objects do not inherit a member of; for
    the name of such a member, "constructor" for one, it is that member and
    no number. *)
Theorem sendNotification_result (title message priority : string) :
  (Pushover.sendNotification inherits apiKey userKey request
     title message priority = true <->
   exists r,
     request {| Pushover.token := apiKey; Pushover.user := userKey;
                Pushover.title := title; Pushover.message := message;
                Pushover.priority := Pushover.priorityOf inherits priority |}
       = Returned (Some r) /\
     Pushover.status r = Some 1%Z) /\
  Pushover.priorityOf inherits priority =
    (if decide (priority = "low") then Pushover.Level (-1)
     else if decide (priority = "high") then Pushover.Level 1
     else if decide (priority = "normal") then Pushover.Level 0
     else if inherits Js.OfObject priority then Pushover.Member priority
     else Pushover.Level 0) /\
  Pushover.priorityOf Js.objectPrototype "constructor"
  = Pushover.Member "constructor" /\
  Pushover.priorityOf Js.objectPrototype "urgent" = Pushover.Level 0.
Proof.
  split; [|split; [|split; reflexivity]].
  - unfold Pushover.sendNotification, tryCatchBool, mbind, completion_bind.
    destruct (request _) as [[r|]|e]; simpl.
    + destruct (bool_decide (Pushover.status r = Some 1%Z)) eqn:Hs.
      * apply bool_decide_eq_true in Hs. split; [|reflexivity].
        intros _. now exists r.
      * apply bool_decide_eq_false in Hs. split; [discriminate|].
        intros (r' & [= <-] & Hr). contradiction.
    + split; [discriminate | now intros (r & [=] & _)].
    + split; [discriminate | now intros (r & [=] & _)].
  - unfold Pushover.priorityOf, Pushover.priorityMap.
    destruct (decide (priority = "low")) as [-> | Hlow]; [reflexivity|].
    rewrite lookup_insert_ne by congruence.
    destruct (decide (priority = "high")) as [-> | Hhigh]; [reflexivity|].
    destruct (decide (priority = "normal")) as [-> | Hnormal];
      [reflexivity|].
    rewrite lookup_insert_ne by congruence.
    now rewrite lookup_singleton_ne by congruence.
Qed.
End PushoverTheorems.

(** X16.  The text of a notification for an available snapshot the parser
    returned never shows the configured store number: its store line is
    the name of the store in the payload, or "Unknown Store", because such
    a snapshot always has a store name.  The store number appears only for
    a snapshot without one. *)
Theorem notification_never_shows_store_number
    (partNumber storeNumber : string) (data : option Payload)
    (s : StockData.t) :
  _parseResponse partNumber data = Returned s ->
  StockData.available s = true ->
  exists store rest,
    storeList data = Some (Some store :: rest) /\
    Pushover.notificationMessage partNumber storeNumber s =
    "Part: " +:+ partNumber +:+ Pushover.newline +:+
    "Store: " +:+ strOrElse (storeName store) "Unknown Store"
              +:+ Pushover.newline +:+
    "Status: " +:+ StockData.message s +:+ Pushover.newline
               +:+ Pushover.newline +:+
    "Check now: https://www.apple.com/my/shop".
Proof.
  intros H Ha.
  destruct (parse_returned_cases _ _ _ H)
    as [[_ ->] | [[_ ->] | (store & pd & Hp & ->)]]; try discriminate.
  destruct (parse_part _ _ _ Hp) as (d & store' & rest & -> & Hs & H').
  assert (Heq : quoted (Some d) store' pd = quoted (Some d) store pd)
    by congruence.
  apply (f_equal StockData.storeName) in Heq. simpl in Heq.
  injection Heq as Heq.
  exists store', rest. split; [assumption|].
  unfold Pushover.notificationMessage. simpl. rewrite <- Heq.
  assert (Hne : strOrElse (storeName store') "Unknown Store" <> "")
    by now apply strOrElse_nonempty.
  unfold strOr.
  now destruct (String.eqb_spec
                  (strOrElse (storeName store') "Unknown Store") "").
Qed.

Lemma notification_never_shows_store_number_witness :
  Pushover.notificationMessage "MFYM4X/A" "R742"
    (quoted (quotePayload "MFYM4X/A" "Available Today")
            {| storeName := Some "Apple The Exchange TRX";
               partsAvailability := None |}
            {| pickupSearchQuote := Some "Available Today";
               storePickupQuote := None |})
  = "Part: MFYM4X/A" +:+ Pushover.newline +:+
    "Store: Apple The Exchange TRX" +:+ Pushover.newline +:+
    "Status: Available Today" +:+ Pushover.newline +:+ Pushover.newline +:+
    "Check now: https://www.apple.com/my/shop".
Proof.
  destruct (notification_never_shows_store_number "MFYM4X/A" "R742"
              (quotePayload "MFYM4X/A" "Available Today") _
              eq_refl eq_refl) as (store & rest & Hs & Hm).
  injection Hs as <- _. exact Hm.
Defined.

Section ConfigTheorems.
Variable env : gmap string string.

Lemma unset_false (v : string) :
  Config.unset env v = false <-> exists s, env !! v = Some s /\ s <> "".
Proof.
  unfold Config.unset. destruct (env !! v) as [s|].
  - destruct (String.eqb_spec s "") as [-> | Hne]; split.
    + discriminate.
    + intros (s' & [= <-] & H). contradiction.
    + intros _. now exists s.
    + reflexivity.
  - split; [discriminate | now intros (s & [=] & _)].
Qed.

Lemma missing_none :
  filter (fun v => Config.unset env v = true) Config.requiredEnvVars = [] <->
  forall v, v ∈ Config.requiredEnvVars -> Config.unset env v = false.
Proof.
  split.
  - intros H v Hin. apply not_true_is_false. intros Hv.
    assert (Hf : v ∈ filter (fun v => Config.unset env v = true)
                            Config.requiredEnvVars)
      by now apply list_elem_of_filter.
    rewrite H in Hf. now apply not_elem_of_nil in Hf.
  - intros H. apply elem_of_nil_inv. intros v Hin.
    apply list_elem_of_filter in Hin as [Hv Hin].
    rewrite (H v Hin) in Hv. discriminate.
Qed.

Lemma loadConfig_inl (file : Config.fileRead) (config : Config.t) :
  Config.loadConfig env file = inl config <->
  Config.loadConfig_try env file = inl config.
Proof.
  unfold Config.loadConfig.
  destruct (Config.loadConfig_try env file) as [c|e]; [reflexivity|].
  now destruct (bool_decide (Config.code e = Some "ENOENT")).
Qed.

(** X17.  [loadConfig] returns a configuration exactly when [config.yml]
    was read, holds the sections [appleStore], [monitoring] and [pushover],
    and each of the four required variables of the environment is set and
    not empty; the configuration returned then carries those four values,
    and its port is the value of [PORT] when that is set and not empty, and
    the default otherwise.  When the file is not there the error says so,
    whatever the environment holds; when the file holds no document, or a
    section is not there, the error is the [TypeError] of the first
    property read of it. *)
Theorem loadConfig_validates (file : Config.fileRead) :
  ((exists config, Config.loadConfig env file = inl config) <->
   (exists yamlConfig a mo p,
      file = Config.Contents (Config.Value yamlConfig) /\
      Config.appleStore yamlConfig = Config.Value a /\
      Config.monitoring yamlConfig = Config.Value mo /\
      Config.pushover yamlConfig = Config.Value p) /\
   forall v, v ∈ Config.requiredEnvVars ->
             exists s, env !! v = Some s /\ s <> "") /\
  (forall config,
     Config.loadConfig env file = inl config ->
     Config.cfg_apiKey config = env !! "PUSHOVER_API_KEY" /\
     Config.cfg_userKey config = env !! "PUSHOVER_USER_KEY" /\
     Config.cfg_partNumber config = env !! "PART_NUMBER" /\
     Config.cfg_storeNumber config = env !! "STORE_NUMBER" /\
     (forall value,
        env !! "PORT" = Some value -> value <> "" ->
        Config.cfg_port config = Config.PortEnv value) /\
     (env !! "PORT" = None \/ env !! "PORT" = Some "" ->
      Config.cfg_port config = Config.PortDefault) /\
     (Config.cfg_port config = Config.PortDefault <->
      Config.unset env "PORT" = true)) /\
  (forall error,
     file = Config.Failed error -> Config.code error = Some "ENOENT" ->
     Config.loadConfig env file =
     inr {| Config.code := None;
            Config.message := "config.yml not found. " +:+
                              "Please create it in the project root." |}) /\
  (file = Config.Contents Config.Undefined ->
   Config.loadConfig env file
   = inr (Config.typeError "undefined" "appleStore")) /\
  (file = Config.Contents Config.Null ->
   Config.loadConfig env file = inr (Config.typeError "null" "appleStore")) /\
  (forall yamlConfig,
     file = Config.Contents (Config.Value yamlConfig) ->
     (Config.appleStore yamlConfig = Config.Undefined ->
      Config.loadConfig env file
      = inr (Config.typeError "undefined" "baseUrl")) /\
     (Config.appleStore yamlConfig = Config.Null ->
      Config.loadConfig env file = inr (Config.typeError "null" "baseUrl"))).
Proof.
  assert (Hport : forall config,
            Config.cfg_port config =
              (if Config.unset env "PORT" then Config.PortDefault
               else Config.PortEnv (default "" (env !! "PORT"))) ->
            (forall value,
               env !! "PORT" = Some value -> value <> "" ->
               Config.cfg_port config = Config.PortEnv value) /\
            (env !! "PORT" = None \/ env !! "PORT" = Some "" ->
             Config.cfg_port config = Config.PortDefault) /\
            (Config.cfg_port config = Config.PortDefault <->
             Config.unset env "PORT" = true)).
  { intros config ->. unfold Config.unset.
    destruct (env !! "PORT") as [value|]; simpl.
    - destruct (String.eqb_spec value "") as [-> | Hne].
      + split; [intros ? [= <-] ?; contradiction|]. now split.
      + split; [now intros ? [= <-] _|].
        split; [intros [? | [= ->]]; [discriminate | contradiction]|].
        split; discriminate.
    - split; [discriminate|]. now split. }
  assert (Hret : forall config,
            Config.loadConfig env file = inl config ->
            exists yamlConfig a mo p,
              file = Config.Contents (Config.Value yamlConfig) /\
              Config.appleStore yamlConfig = Config.Value a /\
              Config.monitoring yamlConfig = Config.Value mo /\
              Config.pushover yamlConfig = Config.Value p /\
              filter (fun v => Config.unset env v = true)
                     Config.requiredEnvVars = [] /\
              Config.cfg_apiKey config = env !! "PUSHOVER_API_KEY" /\
              Config.cfg_userKey config = env !! "PUSHOVER_USER_KEY" /\
              Config.cfg_partNumber config = env !! "PART_NUMBER" /\
              Config.cfg_storeNumber config = env !! "STORE_NUMBER" /\
              Config.cfg_port config =
                (if Config.unset env "PORT" then Config.PortDefault
                 else Config.PortEnv (default "" (env !! "PORT")))).
  { intros config. rewrite loadConfig_inl.
    unfold Config.loadConfig_try, Config.reading.
    destruct file as [[| |y]|error]; try discriminate.
    destruct (Config.appleStore y) as [| |a] eqn:Ha; try discriminate.
    destruct (Config.monitoring y) as [| |mo] eqn:Hmo; try discriminate.
    destruct (Config.pushover y) as [| |p] eqn:Hp; try discriminate.
    cbv zeta.
    destruct (filter _ Config.requiredEnvVars) as [|v l] eqn:Hf;
      try discriminate.
    simpl. intros [= <-]. exists y, a, mo, p. simpl.
    repeat split; try assumption; reflexivity. }
  split; [|split; [|split; [|split; [|split]]]].
  - split.
    + intros [config H].
      destruct (Hret config H) as (y & a & mo & p & Hfile & Ha & Hmo & Hp
                                   & Hf & _).
      split; [now exists y, a, mo, p|].
      intros v Hin. apply unset_false. now apply missing_none.
    + intros [(y & a & mo & p & -> & Ha & Hmo & Hp) Henv].
      assert (Hf : filter (fun v => Config.unset env v = true)
                          Config.requiredEnvVars = []).
      { apply missing_none. intros v Hin. now apply unset_false, Henv. }
      eexists. apply loadConfig_inl.
      unfold Config.loadConfig_try, Config.reading.
      rewrite Ha, Hmo, Hp. cbv zeta. rewrite Hf. reflexivity.
  - intros config H.
    destruct (Hret config H)
      as (y & a & mo & p & _ & _ & _ & _ & _ & Hk & Hu & Hpn & Hsn & Hc).
    do 4 (split; [assumption|]). now apply Hport.
  - intros error -> Hcode. unfold Config.loadConfig. simpl.
    now rewrite bool_decide_eq_true_2.
  - now intros ->.
  - now intros ->.
  - intros yamlConfig ->. unfold Config.loadConfig. simpl.
    split; now intros ->.
Qed.
End ConfigTheorems.

Lemma loadConfig_validates_witness :
  let env : gmap string string :=
    {[ "PUSHOVER_API_KEY" := "k"; "PUSHOVER_USER_KEY" := "u";
       "PART_NUMBER" := "MFYM4X/A"; "STORE_NUMBER" := "R742";
       "PORT" := "8080" ]} in
  let yamlConfig :=
    {| Config.appleStore :=
         Config.Value
           {| Config.baseUrl := Some "https://www.apple.com/my/shop";
              Config.params := Some [("pl", "true")] |};
       Config.monitoring :=
         Config.Value {| Config.intervalMs := Some 300000%Z |};
       Config.pushover :=
         Config.Value
           {| Config.apiUrl :=
                Some "https://api.pushover.net/1/messages.json" |};
       Config.logging := None |} in
  (exists config,
     Config.loadConfig env (Config.Contents (Config.Value yamlConfig))
     = inl config /\
     Config.cfg_port config = Config.PortEnv "8080") /\
  Config.loadConfig env
    (Config.Failed {| Config.code := Some "ENOENT";
                      Config.message := "ENOENT: no such file" |})
  = inr {| Config.code := None;
           Config.message := "config.yml not found. " +:+
                             "Please create it in the project root." |} /\
  Config.loadConfig env (Config.Contents Config.Null)
  = inr (Config.typeError "null" "appleStore").
Proof.
  intros env yamlConfig. split; [|split].
  - destruct (proj2 (proj1 (loadConfig_validates env
                (Config.Contents (Config.Value yamlConfig)))))
      as [config Hconfig].
    + split.
      * now eexists yamlConfig, _, _, _.
      * intros v Hin.
        repeat (apply elem_of_cons in Hin as [-> | Hin]);
          [eexists; split; [reflexivity | discriminate]..|].
        now apply elem_of_nil in Hin.
    + exists config. split; [assumption|].
      apply (proj1 (proj2 (loadConfig_validates env _)) config Hconfig);
        [reflexivity | discriminate].
  - apply (proj1 (proj2 (proj2 (loadConfig_validates env _)))
             {| Config.code := Some "ENOENT";
                Config.message := "ENOENT: no such file" |});
      reflexivity.
  - now apply (proj1 (proj2 (proj2 (proj2 (proj2
             (loadConfig_validates env _)))))).
Defined.

Lemma start_from_stopped_witness :
  let r := start (always NoResponse) "MFYM4X/A" 300000 newMachine in
  isRunning (final r) = true /\
  checkCount (final r) = 1%nat /\
  intervalId (final r) = Some 0%nat /\
  head (events r) = Some (SetInterval 0 300000).
Proof.
  destruct (start_from_stopped (always NoResponse) "MFYM4X/A" 300000
              newMachine eq_refl)
    as (_ & Hrun & Hcount & Hid & _ & _ & _ & _ & _ & _ & Hevents).
  split; [assumption|]. split; [assumption|]. split; [assumption|].
  exact (f_equal head Hevents).
Defined.

Lemma stop_running_witness :
  let m := final (start (always NoResponse) "MFYM4X/A" 300000 newMachine) in
  isRunning (final (stop m)) = false /\
  intervalId (final (stop m)) = None /\
  checkCount (final (stop m)) = checkCount m.
Proof.
  destruct (stop_running (always NoResponse) "MFYM4X/A"
              (final (start (always NoResponse) "MFYM4X/A" 300000
                            newMachine))
              eq_refl)
    as (_ & Hrun & Hid & _ & Hcount & _).
  repeat split; assumption.
Defined.


